(** * Plugins::Server — the plugin broadcast server of Serial Studio

    A shallow embedding of [app/src/Plugins/Server.cpp].  The server is a
    single-threaded Qt object: every slot runs to completion on the event
    loop, so each slot is a function from the member state to the new member
    state together with the ordered list of calls it makes on its
    collaborators (sockets, the I/O manager, the message box, the debug log).
    What a collaborator answers ([isWritable], [readAll], [errorString], the
    pending connection, the sender of a signal) is an argument of the slot. *)

From Equations Require Import Equations.
From Stdlib Require Import String Ascii.
From Stdlib Require Import List Arith Bool ZArith NArith Lia.
From Stdlib Require Import Strings.Byte.
Import ListNotations.

(** ** Qt value types *)

Definition QString := string.
Bind Scope string_scope with QString.
Definition QByteArray := list byte.

(** A live [QTcpSocket] object is known by its identity; a [QTcpSocket *] is
    such an identity or the null pointer. *)
Definition QTcpSocket := nat.
Definition QTcpSocketPtr := option QTcpSocket.

(** [QAbstractSocket::SocketError], an enumeration printed as its number. *)
Definition SocketError := Z.

Inductive Icon := IconWarning | IconCritical.

(** [a == b] on socket pointers. *)
Definition ptr_eqb (a b : QTcpSocketPtr) : bool :=
  match a, b with
  | Some x, Some y => Nat.eqb x y
  | None, None => true
  | _, _ => false
  end.

(** ** JSON documents *)

Module QJson.
Section Values.
(** The code never looks inside a number: the type of JSON numbers is left
    open. *)
Variable double : Type.

#[warnings="-register-all"]
Inductive QJsonValue :=
| JsonNull
| JsonBool (b : bool)
| JsonDouble (d : double)
| JsonString (s : QString)
| JsonArray (a : list QJsonValue)
| JsonObject (o : list (QString * QJsonValue)).

Definition QJsonArray := list QJsonValue.
Definition QJsonObject := list (QString * QJsonValue).

(** [object.insert(key, value)]: the value replaces any value the key had. *)
Definition insert (key : QString) (value : QJsonValue) (object : QJsonObject)
  : QJsonObject :=
  (key, value) :: filter (fun kv => negb (String.eqb key (fst kv))) object.

(** [array.append(value)] and [array.count()]. *)
Definition append (value : QJsonValue) (array : QJsonArray) : QJsonArray :=
  array ++ [value].
Definition count (array : QJsonArray) : nat := length array.
End Values.
Arguments JsonNull {double}.
Arguments JsonBool {double} b.
Arguments JsonString {double} s.
Arguments JsonDouble {double} d.
Arguments JsonArray {double} a.
Arguments JsonObject {double} o.
Arguments insert {double} key value object.
Arguments append {double} value array.
Arguments count {double} array.
End QJson.
Import QJson.

(** ** Collaborators outside this file

    [JSON::Frame] and its [serialize()] live in [JSON/Frame.h]; the compact
    JSON writer, Base64 and UTF-8 decoding are Qt's.  The server only calls
    them, so they are taken as given. *)
Class Externals := {
  double : Type;
  Frame : Type;
  (** [frame.serialize()] *)
  serialize : Frame -> QJsonObject double;
  (** [QJsonDocument(object).toJson(QJsonDocument::Compact)] *)
  toJson : QJsonObject double -> QByteArray;
  (** [data.toBase64()] *)
  toBase64 : QByteArray -> QByteArray;
  (** [QString::fromUtf8(bytes)] *)
  fromUtf8 : QByteArray -> QString
}.

(** ** Calls made on collaborators *)

Inductive Effect :=
| SocketWrite (socket : QTcpSocket) (data : QByteArray)
| SocketReadAll (socket : QTcpSocket)
| SocketAbort (socket : QTcpSocket)
| SocketClose (socket : QTcpSocket)
| SocketDeleteLater (socket : QTcpSocket)
| ManagerWriteData (data : QByteArray)
| EnabledChanged
| ShowMessageBox (title text : QString) (icon : Icon)
| ServerClose
| DebugString (text : QString)
| DebugError (code : SocketError).

(** ** QList operations used by the server *)

(** [list.removeAt(i)] for [i] in range. *)
Definition removeAt {A} (i : nat) (l : list A) : list A :=
  firstn i l ++ skipn (S i) l.

Lemma removeAt_length {A} (i : nat) (l : list A) :
  i < length l -> length (removeAt i l) = length l - 1.
Proof.
  intros Hi. unfold removeAt.
  rewrite length_app, length_firstn, length_skipn. lia.
Qed.

(** [list.at(i)]; only ever called with [i < list.count()]. *)
Definition at_ (l : list QTcpSocketPtr) (i : nat) : QTcpSocketPtr := nth i l None.

(** The newline appended to every payload. *)
Definition newline : QByteArray := [x0a].

(** ** The loops over [m_sockets] *)

(** The loop of [removeConnection]: [i] is the loop index and [sockets] the
    current [m_sockets].  After [removeAt(i)] the body sets [i = 0] and the
    loop header's [++i] resumes the scan at index 1. *)
Definition scan_measure (sockets : list QTcpSocketPtr) (i : nat) : nat :=
  length sockets * S (length sockets) + (length sockets - i).

Equations? removeConnection_loop (socket : QTcpSocketPtr) (i : nat)
    (sockets : list QTcpSocketPtr) : list QTcpSocketPtr
    by wf (scan_measure sockets i) lt :=
  removeConnection_loop socket i sockets with lt_dec i (length sockets) => {
    | right _ := sockets
    | left _ with ptr_eqb (at_ sockets i) socket => {
        | true := removeConnection_loop socket 1 (removeAt i sockets)
        | false := removeConnection_loop socket (S i) sockets } }.
Proof.
  - unfold scan_measure. rewrite removeAt_length by assumption. nia.
  - unfold scan_measure. lia.
Qed.

(** The entries of a list other than [socket]. *)
Definition others (socket : QTcpSocketPtr) (l : list QTcpSocketPtr)
  : list QTcpSocketPtr :=
  filter (fun x => negb (ptr_eqb x socket)) l.

(** The loop never makes the list longer. *)
Lemma removeConnection_loop_length (socket : QTcpSocketPtr) (i : nat)
  (sockets : list QTcpSocketPtr) :
  length (removeConnection_loop socket i sockets) <= length sockets.
Proof.
  funelim (removeConnection_loop socket i sockets).
  - lia.
  - match goal with IH : _ <= length (removeAt _ _) |- _ =>
      rewrite removeAt_length in IH by assumption end.
    lia.
  - assumption.
Qed.

(** The loop of [setEnabled(false)] over [m_sockets].  [socket->abort()] on a
    connected socket emits [disconnected()] before it returns, and
    [acceptConnection] has wired that signal to [removeConnection], which
    then edits [m_sockets] under the running loop; [abortDisconnects socket]
    says whether this socket does so.  The loop re-reads [m_sockets.count()]
    and [m_sockets.at(i)] at every turn, as the source does.  With
    [abortDisconnects] constantly false the loop is a plain traversal. *)
Equations? setEnabled_loop (abortDisconnects : QTcpSocket -> bool) (i : nat)
    (sockets : list QTcpSocketPtr) : list QTcpSocketPtr * list Effect
    by wf (length sockets - i) lt :=
  setEnabled_loop abortDisconnects i sockets with lt_dec i (length sockets) => {
    | right _ := (sockets, [])
    | left _ with at_ sockets i => {
        | None := setEnabled_loop abortDisconnects (S i) sockets
        | Some socket with abortDisconnects socket => {
            | true :=
                let rest := setEnabled_loop abortDisconnects (S i)
                              (removeConnection_loop (Some socket) 0 sockets) in
                (fst rest,
                 SocketAbort socket :: SocketDeleteLater socket
                   :: SocketDeleteLater socket :: snd rest)
            | false :=
                let rest := setEnabled_loop abortDisconnects (S i) sockets in
                (fst rest,
                 SocketAbort socket :: SocketDeleteLater socket :: snd rest) } } }.
Proof.
  all: try lia.
  pose proof (removeConnection_loop_length (Some socket) 0 sockets). lia.
Qed.

(** ** The server *)

Section Server.
Context {ext : Externals}.

(** The members of [Plugins::Server]: the enabled flag, the registered
    sockets ([QList<QTcpSocket *>]) and the pending frames. *)
Record Server := {
  m_enabled : bool;
  m_sockets : list QTcpSocketPtr;
  m_frames : list Frame
}.

Definition with_sockets (s : Server) (sockets : list QTcpSocketPtr) : Server :=
  {| m_enabled := m_enabled s; m_sockets := sockets; m_frames := m_frames s |}.

Definition with_frames (s : Server) (frames : list Frame) : Server :=
  {| m_enabled := m_enabled s; m_sockets := m_sockets s; m_frames := frames |}.

(** The constructor: the flag starts false, both containers start empty; a
    failed [listen] is reported and the TCP server closed. *)
Definition constructor (listening : bool) (errorString : QString)
  : Server * list Effect :=
  ({| m_enabled := false; m_sockets := []; m_frames := [] |},
   if negb listening
   then [ShowMessageBox "Unable to start plugin TCP server" errorString
           IconWarning; ServerClose]
   else []).

Definition enabled (s : Server) : bool := m_enabled s.

(** [sender] is [QObject::sender()] cast to a socket. *)
Definition removeConnection (sender : QTcpSocketPtr) (s : Server)
  : Server * list Effect :=
  match sender with
  | Some socket =>
      (with_sockets s (removeConnection_loop (Some socket) 0 (m_sockets s)),
       [SocketDeleteLater socket])
  | None => (s, [])
  end.

(** The flag is written first; the sockets are aborted and the list cleared
    only when disabling; the frames are cleared on every call. *)
Definition setEnabled (abortDisconnects : QTcpSocket -> bool) (enabled : bool)
  (s : Server) : Server * list Effect :=
  let closing :=
    if negb enabled
    then ([], snd (setEnabled_loop abortDisconnects 0 (m_sockets s)))
    else (m_sockets s, []) in
  ({| m_enabled := enabled; m_sockets := fst closing; m_frames := [] |},
   EnabledChanged :: snd closing).

(** [readAll socket] is what [socket->readAll()] returns: every byte the
    socket has available. *)
Definition onDataReceived (sender : QTcpSocketPtr)
  (readAll : QTcpSocket -> QByteArray) (s : Server) : Server * list Effect :=
  match enabled s, sender with
  | true, Some socket =>
      (s, [SocketReadAll socket; ManagerWriteData (readAll socket)])
  | _, _ => (s, [])
  end.

(** [pending] is [m_server.nextPendingConnection()].  The three [connect]
    calls make the socket a possible sender of [readyRead], [disconnected]
    and [errorOccurred] from then on. *)
Definition acceptConnection (pending : QTcpSocketPtr) (s : Server)
  : Server * list Effect :=
  let socket := pending in
  if match socket with None => true | Some _ => false end && enabled s
  then (s, [ShowMessageBox "Plugin server" "Invalid pending connection"
              IconCritical])
  else if negb (enabled s)
  then (s, match socket with
           | Some sock => [SocketClose sock; SocketDeleteLater sock]
           | None => []
           end)
  else (with_sockets s (m_sockets s ++ [socket]), []).

(** The body shared by both senders' [Q_FOREACH (auto socket, m_sockets)]:
    null entries are skipped, writable sockets are written to. *)
Definition foreach_write (isWritable : QTcpSocket -> bool) (json : QByteArray)
  (sockets : list QTcpSocketPtr) : list Effect :=
  flat_map (fun socket =>
              match socket with
              | None => []
              | Some sock =>
                  if isWritable sock then [SocketWrite sock json] else []
              end) sockets.

(** The JSON array of [sendProcessedData]: one object per pending frame. *)
Definition frames_array (frames : list Frame) : QJsonArray double :=
  fold_left (fun array frame =>
               append (JsonObject (insert "data" (JsonObject (serialize frame)) []))
                      array)
            frames [].

Definition frames_json (array : QJsonArray double) : QByteArray :=
  toJson (insert "frames" (JsonArray array) []) ++ newline.

Definition sendProcessedData (isWritable : QTcpSocket -> bool) (s : Server)
  : Server * list Effect :=
  if negb (enabled s) then (s, [])
  else if length (m_frames s) <=? 0 then (s, [])
  else if length (m_sockets s) <? 1 then (s, [])
  else
    let array := frames_array (m_frames s) in
    (with_frames s [],
     if 0 <? count array
     then foreach_write isWritable (frames_json array) (m_sockets s)
     else []).

Definition raw_json (data : QByteArray) : QByteArray :=
  toJson (insert "data" (JsonString (fromUtf8 (toBase64 data))) []) ++ newline.

Definition sendRawData (isWritable : QTcpSocket -> bool) (data : QByteArray)
  (s : Server) : Server * list Effect :=
  if negb (enabled s) then (s, [])
  else if length (m_sockets s) <? 1 then (s, [])
  else (s, foreach_write isWritable (raw_json data) (m_sockets s)).

Definition registerFrame (frame : Frame) (s : Server) : Server * list Effect :=
  if enabled s
  then (with_frames s (m_frames s ++ [frame]), [])
  else (s, []).

(** [errorString socket] is what [socket->errorString()] returns. *)
Definition onErrorOccurred (sender : QTcpSocketPtr) (socketError : SocketError)
  (errorString : QTcpSocket -> QString) (s : Server) : Server * list Effect :=
  match sender with
  | Some socket => (s, [DebugString (errorString socket)])
  | None => (s, [DebugError socketError])
  end.

(** ** The event loop

    The signals wired to the server's slots (in the constructor and in
    [acceptConnection]) and the one public setter, each with what the
    collaborators answer while the slot runs. *)
Inductive Event :=
| frameChanged (frame : Frame)
| timeout1Hz (isWritable : QTcpSocket -> bool)
| dataReceived (data : QByteArray) (isWritable : QTcpSocket -> bool)
| newConnection (pending : QTcpSocketPtr)
| readyRead (sender : QTcpSocketPtr) (readAll : QTcpSocket -> QByteArray)
| disconnected (sender : QTcpSocketPtr)
| errorOccurred (sender : QTcpSocketPtr) (socketError : SocketError)
    (errorString : QTcpSocket -> QString)
| callSetEnabled (enabled : bool) (abortDisconnects : QTcpSocket -> bool).

Definition handle (ev : Event) (s : Server) : Server * list Effect :=
  match ev with
  | frameChanged frame => registerFrame frame s
  | timeout1Hz isWritable => sendProcessedData isWritable s
  | dataReceived data isWritable => sendRawData isWritable data s
  | newConnection pending => acceptConnection pending s
  | readyRead sender readAll => onDataReceived sender readAll s
  | disconnected sender => removeConnection sender s
  | errorOccurred sender socketError errorString =>
      onErrorOccurred sender socketError errorString s
  | callSetEnabled enabled abortDisconnects =>
      setEnabled abortDisconnects enabled s
  end.

(** Events are handled one after the other, each slot running to completion. *)
Fixpoint run (evs : list Event) (s : Server) : Server * list Effect :=
  match evs with
  | [] => (s, [])
  | ev :: rest =>
      let step := handle ev s in
      let tail := run rest (fst step) in
      (fst tail, snd step ++ snd tail)
  end.

(** The server as constructed, and after a history of events. *)
Definition initial : Server := fst (constructor true EmptyString).
Definition after (evs : list Event) : Server := fst (run evs initial).

(** [nextPendingConnection()] hands out a newly created socket object, so a
    pending socket is never one that [m_sockets] already holds. *)
Definition registered (socket : QTcpSocket) (s : Server) : bool :=
  existsb (ptr_eqb (Some socket)) (m_sockets s).

Definition fresh (ev : Event) (s : Server) : bool :=
  match ev with
  | newConnection (Some socket) => negb (registered socket s)
  | _ => true
  end.

Fixpoint admissible (evs : list Event) (s : Server) : bool :=
  match evs with
  | [] => true
  | ev :: rest => fresh ev s && admissible rest (fst (handle ev s))
  end.

(** The sockets an effect list writes to, and whether a history accepts a
    given socket. *)
Definition writes_to (socket : QTcpSocket) (fx : list Effect) : list QByteArray :=
  flat_map (fun e =>
              match e with
              | SocketWrite sock data =>
                  if Nat.eqb sock socket then [data] else []
              | _ => []
              end) fx.

(** Events that neither register a frame nor accept a connection. *)
Definition adds_nothing (ev : Event) : bool :=
  match ev with
  | frameChanged _ | newConnection _ => false
  | _ => true
  end.

Definition accepts (socket : QTcpSocket) (ev : Event) : bool :=
  match ev with
  | newConnection pending => ptr_eqb pending (Some socket)
  | _ => false
  end.

(** ** Notions used to state the properties *)


(** [e] is a write of [json] to a registered, writable socket. *)
Definition write_of (w : QTcpSocket -> bool) (json : QByteArray)
  (sockets : list QTcpSocketPtr) (e : Effect) : Prop :=
  exists socket, e = SocketWrite socket json
                 /\ In (Some socket) sockets /\ w socket = true.

(** A disabled server holds no socket and no frame. *)
Definition quiet (s : Server) : Prop :=
  enabled s = false -> m_sockets s = [] /\ m_frames s = [].

(** The registered sockets are distinct and none is null. *)
Definition distinct (s : Server) : Prop :=
  NoDup (m_sockets s) /\ ~ In None (m_sockets s).

(** After a tick nothing is left to send: the buffer is empty, or there is
    no socket, or the server is disabled. *)
Definition drained (s : Server) : Prop :=
  m_frames s = [] \/ m_sockets s = [] \/ enabled s = false.

End Server.

(** ** A concrete platform

    Frames that carry a title, JSON without numbers, a compact JSON writer
    (titles are written as they are, without escapes) and RFC 4648 Base64:
    enough to run the server on concrete inputs. *)
Module Sample.

Definition alphabet : list byte :=
  list_byte_of_string
    "ABCDEFGHIJKLMNOPQRSTUVWXYZabcdefghijklmnopqrstuvwxyz0123456789+/".

Definition sextet (n : N) : byte := nth (N.to_nat (N.land n 63)) alphabet x3d.

Definition triple (a b c : byte) : N :=
  N.lor (N.shiftl (Byte.to_N a) 16) (N.lor (N.shiftl (Byte.to_N b) 8) (Byte.to_N c)).

Fixpoint base64 (data : list byte) : list byte :=
  match data with
  | [] => []
  | [a] =>
      let n := triple a x00 x00 in
      [sextet (N.shiftr n 18); sextet (N.shiftr n 12); x3d; x3d]
  | [a; b] =>
      let n := triple a b x00 in
      [sextet (N.shiftr n 18); sextet (N.shiftr n 12); sextet (N.shiftr n 6); x3d]
  | a :: b :: c :: rest =>
      let n := triple a b c in
      sextet (N.shiftr n 18) :: sextet (N.shiftr n 12) :: sextet (N.shiftr n 6)
        :: sextet n :: base64 rest
  end.

Definition bytes (s : string) : list byte := list_byte_of_string s.

Definition quoted (s : string) : list byte := x22 :: bytes s ++ [x22].

Fixpoint join (sep : list byte) (parts : list (list byte)) : list byte :=
  match parts with
  | [] => []
  | [p] => p
  | p :: rest => p ++ sep ++ join sep rest
  end.

Fixpoint write (v : QJsonValue Empty_set) : list byte :=
  match v with
  | JsonNull => bytes "null"
  | JsonBool b => bytes (if b then "true" else "false")
  | JsonDouble d => match d with end
  | JsonString s => quoted s
  | JsonArray a => bytes "[" ++ join (bytes ",") (map write a) ++ bytes "]"
  | JsonObject o =>
      bytes "{"
        ++ join (bytes ",")
             (map (fun kv => match kv with
                             | (k, x) => quoted k ++ bytes ":" ++ write x
                             end) o)
        ++ bytes "}"
  end.

#[global] Instance platform : Externals := {|
  double := Empty_set;
  Frame := string;
  serialize := fun title => [("title"%string, JsonString title)];
  toJson := fun object => write (JsonObject object);
  toBase64 := base64;
  fromUtf8 := string_of_list_byte
|}.

End Sample.

(** ** The server on concrete inputs

    Two plugins connect to an enabled server; socket 1 is writable, socket 2
    is not. *)
Module Scenario.
Import Sample.

Definition never : QTcpSocket -> bool := fun _ => false.
Definition always : QTcpSocket -> bool := fun _ => true.
Definition only1 : QTcpSocket -> bool := Nat.eqb 1.

Definition two_plugins : list Event :=
  [callSetEnabled true never; newConnection (Some 1); newConnection (Some 2)].


End Scenario.

(** ** Widgets::Plot3D and Widgets::Plot3DGeometry

    A shallow embedding of [app/src/UI/Widgets/Plot3D.cpp].  The geometry
    object keeps its bounding box and drives its [QQuick3DGeometry] base
    class; the widget keeps an index into the dashboard, a colour, a pointer
    to a geometry object and the interpolation flag. *)
Module Widgets.

(** [float] with its [<] and [!=], [QColor] with its conversion from a
    string, and the type of JSON numbers are taken as given. *)
Class Graphics := {
  float : Type;
  float_lt : float -> float -> bool;
  float_ne : float -> float -> bool;
  float_zero : float;
  QColor : Type;
  colorNamed : QString -> QColor;
  invalidColor : QColor;
  number : Type
}.

Inductive PrimitiveType := Points | LineStrip.
Inductive Semantic := PositionSemantic.
Inductive ComponentType := F32Type.

(** A buffer created with [Qt::Uninitialized], seen as slots of its element
    type: a slot holds nothing until it is written.  Writing through a
    pointer that is past the end is undefined. *)
Definition Buffer (A : Type) := list (option A).

Definition uninitialized (A : Type) (slots : nat) : Buffer A := repeat None slots.

Definition poke {A} (buffer : Buffer A) (i : nat) (a : A) : option (Buffer A) :=
  if i <? length buffer
  then Some (firstn i buffer ++ Some a :: skipn (S i) buffer)
  else None.

Section Plot3D.
Context {gfx : Graphics}.

Record QVector3D := { x : float; y : float; z : float }.

(** [qMin(a, b)] is [(a < b) ? a : b] and [qMax(a, b)] is [(a < b) ? b : a]. *)
Definition qMin (a b : float) : float := if float_lt a b then a else b.
Definition qMax (a b : float) : float := if float_lt a b then b else a.

(** [v1 != v2] on vectors. *)
Definition vector_ne (v1 v2 : QVector3D) : bool :=
  float_ne (x v1) (x v2) || float_ne (y v1) (y v2) || float_ne (z v1) (z v2).

(** Calls on the [QQuick3DGeometry] base class and the signal of the
    geometry object. *)
Inductive GeometryCall :=
| Clear
| SetBounds (min max : QVector3D)
| SetVertexData (data : Buffer float)
| SetStride (bytes : nat)
| SetIndexData (offset : nat) (data : Buffer N)
| SetPrimitiveType (type : PrimitiveType)
| AddAttribute (semantic : Semantic) (offset : nat) (type : ComponentType)
| BoundsChanged
| Update.

Record Plot3DGeometry := { m_min : QVector3D; m_max : QVector3D }.

(** [3 * sizeof(float)] *)
Definition stride : nat := 3 * 4.

Definition Plot3DGeometry_constructor : Plot3DGeometry * list GeometryCall :=
  let origin := {| x := float_zero; y := float_zero; z := float_zero |} in
  ({| m_min := origin; m_max := origin |},
   [SetStride stride; AddAttribute PositionSemantic 0 F32Type]).

Definition boundsMin (g : Plot3DGeometry) : QVector3D := m_min g.
Definition boundsMax (g : Plot3DGeometry) : QVector3D := m_max g.

(** The state of the first loop of [updateData]: the vertex buffer, the
    write pointer [v] into it (in slots), and the running bounds. *)
Record Filling := {
  vertexBuffer : Buffer float;
  v : nat;
  min : QVector3D;
  max : QVector3D
}.

(** One turn of the loop, for the point [p]. *)
Definition fill_point (st : Filling) (p : QVector3D) : option Filling :=
  match poke (vertexBuffer st) (v st) (x p) with
  | None => None
  | Some b1 =>
      match poke b1 (v st + 1) (y p) with
      | None => None
      | Some b2 =>
          match poke b2 (v st + 2) (z p) with
          | None => None
          | Some b3 =>
              Some {| vertexBuffer := b3;
                      v := v st + 3;
                      min := {| x := qMin (x (min st)) (x p);
                                y := qMin (y (min st)) (y p);
                                z := qMin (z (min st)) (z p) |};
                      max := {| x := qMax (x (max st)) (x p);
                                y := qMax (y (max st)) (y p);
                                z := qMax (z (max st)) (z p) |} |}
          end
      end
  end.

Fixpoint fill_points (st : Filling) (points : list QVector3D) : option Filling :=
  match points with
  | [] => Some st
  | p :: rest =>
      match fill_point st p with
      | None => None
      | Some st' => fill_points st' rest
      end
  end.

(** [static_cast<quint32>(n)] *)
Definition to_quint32 (n : nat) : N := N.of_nat n mod 2 ^ 32.

(** The second loop: [for (quint32 j = 0; j < count; ++j) *i++ = j;]; the
    write pointer and [j] advance together. *)
Fixpoint fill_indices (buffer : Buffer N) (js : list nat) : option (Buffer N) :=
  match js with
  | [] => Some buffer
  | j :: rest =>
      match poke buffer j (N.of_nat j) with
      | None => None
      | Some buffer' => fill_indices buffer' rest
      end
  end.

(** [Plot3DGeometry::updateData]; [None] stands for an out-of-bounds write.
    Buffer sizes are counted in slots of four bytes. *)
Definition Plot3DGeometry_updateData (points : list QVector3D) (interpolate : bool)
  (g : Plot3DGeometry) : option (Plot3DGeometry * list GeometryCall) :=
  match points with
  | [] => Some (g, [])
  | first :: _ =>
      let type := if interpolate then LineStrip else Points in
      match fill_points {| vertexBuffer := uninitialized float (length points * 3);
                           v := 0; min := first; max := first |} points with
      | None => None
      | Some st =>
          match fill_indices (uninitialized N (length points))
                  (seq 0 (N.to_nat (to_quint32 (length points)))) with
          | None => None
          | Some indexBuffer =>
              let calls :=
                [Clear; SetBounds (min st) (max st);
                 SetVertexData (vertexBuffer st); SetStride stride;
                 SetIndexData 0 indexBuffer; SetPrimitiveType type;
                 AddAttribute PositionSemantic 0 F32Type] in
              if vector_ne (m_min g) (min st) || vector_ne (m_max g) (max st)
              then Some ({| m_min := min st; m_max := max st |},
                         calls ++ [BoundsChanged; Update])
              else Some (g, calls ++ [Update])
          end
      end
  end.

(** *** The widget *)

(** A [Plot3DGeometry *]: the identity of a geometry object, or null. *)
Definition GeometryPtr := option nat.

Definition geometry_eqb (a b : GeometryPtr) : bool :=
  match a, b with
  | Some p, Some q => Nat.eqb p q
  | None, None => true
  | _, _ => false
  end.

Record Plot3D := {
  m_index : Z;
  m_diffuseColor : QColor;
  m_geometry : GeometryPtr;
  m_interpolationEnabled : bool
}.

(** The geometry objects that exist, by identity. *)
Definition Scene := nat -> Plot3DGeometry.

Definition put (scene : Scene) (p : nat) (g : Plot3DGeometry) : Scene :=
  fun q => if Nat.eqb q p then g else scene q.

(** What the widget does to the outside: its signals, and calls made by a
    geometry object it updates. *)
Inductive WidgetCall :=
| ColorsChanged
| GeometryChanged
| InterpolationEnabledChanged
| OnGeometry (p : nat) (call : GeometryCall).

Definition geometry (w : Plot3D) : GeometryPtr := m_geometry w.
Definition diffuseColor (w : Plot3D) : QColor := m_diffuseColor w.
Definition interpolationEnabled (w : Plot3D) : bool := m_interpolationEnabled w.

(** [valid] is [VALIDATE_WIDGET(SerialStudio::DashboardPlot3D, m_index)] and
    [data] is [UI::Dashboard::instance().plotData3D(m_index)]. *)
Definition Plot3D_updateData (valid : bool) (data : list QVector3D) (w : Plot3D)
  (scene : Scene) : option (Scene * list WidgetCall) :=
  if negb valid then Some (scene, [])
  else match data with
       | [] => Some (scene, [])
       | _ =>
           match m_geometry w with
           | None => Some (scene, [])
           | Some p =>
               match Plot3DGeometry_updateData data (m_interpolationEnabled w)
                       (scene p) with
               | None => None
               | Some (g, calls) => Some (put scene p g, map (OnGeometry p) calls)
               end
           end
       end.

Definition setInterpolationEnabled (enabled : bool) (valid : bool)
  (data : list QVector3D) (w : Plot3D) (scene : Scene)
  : option (Plot3D * Scene * list WidgetCall) :=
  if negb (Bool.eqb (m_interpolationEnabled w) enabled)
  then
    let w' := {| m_index := m_index w; m_diffuseColor := m_diffuseColor w;
                 m_geometry := m_geometry w;
                 m_interpolationEnabled := enabled |} in
    match Plot3D_updateData valid data w' scene with
    | None => None
    | Some (scene', calls) =>
        Some (w', scene', calls ++ [InterpolationEnabledChanged])
    end
  else Some (w, scene, []).

Definition setGeometry (geometry : GeometryPtr) (w : Plot3D)
  : Plot3D * list WidgetCall :=
  match geometry with
  | Some _ =>
      if negb (geometry_eqb (m_geometry w) geometry)
      then ({| m_index := m_index w; m_diffuseColor := m_diffuseColor w;
               m_geometry := geometry;
               m_interpolationEnabled := m_interpolationEnabled w |},
            [GeometryChanged])
      else (w, [])
  | None => (w, [])
  end.

(** [c.at(i)]: the value at [i], or the undefined value out of range. *)
Definition QJsonArray_at (c : QJsonArray number) (i : Z) : option (QJsonValue number) :=
  if (i <? 0)%Z || (Z.of_nat (length c) <=? i)%Z
  then None
  else nth_error c (Z.to_nat i).

(** [value.toString()]: the string, or the null string if the value is not
    a string. *)
Definition toString (value : option (QJsonValue number)) : QString :=
  match value with
  | Some (JsonString s) => s
  | _ => EmptyString
  end.

(** [c] is [ThemeManager::instance().colors()["widget_colors"].toArray()].
    [m_index % c.count()] with [c.count()] zero is undefined: [None]. *)
Definition onThemeChanged (c : QJsonArray number) (w : Plot3D)
  : option (Plot3D * list WidgetCall) :=
  let with_color name :=
    ({| m_index := m_index w; m_diffuseColor := colorNamed name;
        m_geometry := m_geometry w;
        m_interpolationEnabled := m_interpolationEnabled w |},
     [ColorsChanged]) in
  if (m_index w <? Z.of_nat (count c))%Z
  then Some (with_color (toString (QJsonArray_at c (m_index w))))
  else if Nat.eqb (count c) 0 then None
       else Some (with_color
                    (toString (QJsonArray_at c
                                 (Z.rem (m_index w) (Z.of_nat (count c)))))).

(** The constructor sets the members and calls [onThemeChanged()]. *)
Definition Plot3D_constructor (index : Z) (c : QJsonArray number)
  : option (Plot3D * list WidgetCall) :=
  onThemeChanged c {| m_index := index; m_diffuseColor := invalidColor;
                      m_geometry := None; m_interpolationEnabled := true |}.

(** *** Notions used to state the properties *)

(** The coordinates of the points, in buffer order. *)
Definition flatten (points : list QVector3D) : list float :=
  flat_map (fun p => [x p; y p; z p]) points.

(** The geometry pointers given to the widget, one [setGeometry] each. *)
Fixpoint setGeometries (geometries : list GeometryPtr) (w : Plot3D) : Plot3D :=
  match geometries with
  | [] => w
  | g :: rest => setGeometries rest (fst (setGeometry g w))
  end.

(** The last non-null pointer of a list, or [default]. *)
Fixpoint last_set (geometries : list GeometryPtr) (default : GeometryPtr)
  : GeometryPtr :=
  match geometries with
  | [] => default
  | Some p :: rest => last_set rest (Some p)
  | None :: rest => last_set rest default
  end.

(** [a <= b], as [!(b < a)]. *)
Definition float_le (a b : float) : Prop := float_lt b a = false.

(** The bounds the first loop arrives at, starting from [m]. *)
Definition lower (m : QVector3D) (points : list QVector3D) : QVector3D :=
  fold_left (fun m p => {| x := qMin (x m) (x p); y := qMin (y m) (y p);
                           z := qMin (z m) (z p) |}) points m.

Definition upper (m : QVector3D) (points : list QVector3D) : QVector3D :=
  fold_left (fun m p => {| x := qMax (x m) (x p); y := qMax (y m) (y p);
                           z := qMax (z m) (z p) |}) points m.

(** The calls of an update that goes through, before the closing ones. *)
Definition update_calls (points : list QVector3D) (first : QVector3D)
  (interpolate : bool) : list GeometryCall :=
  let count := N.to_nat (to_quint32 (length points)) in
  [Clear; SetBounds (lower first points) (upper first points);
   SetVertexData (map Some (flatten points)); SetStride stride;
   SetIndexData 0 (map Some (map N.of_nat (seq 0 count))
                     ++ uninitialized N (length points - count));
   SetPrimitiveType (if interpolate then LineStrip else Points);
   AddAttribute PositionSemantic 0 F32Type].

(** [<] orders the given values as numbers are ordered: no two of them are
    below each other, and [<=] is transitive on them (no NaN among them). *)
Definition ordered (values : list float) : Prop :=
  (forall a b, In a values -> In b values ->
               float_lt a b = true -> float_lt b a = false)
  /\ (forall a b c, In a values -> In b values -> In c values ->
                    float_le a b -> float_le b c -> float_le a c).

(** [p] lies between [mn] and [mx], coordinate by coordinate. *)
Definition encloses (mn mx p : QVector3D) : Prop :=
  float_le (x mn) (x p) /\ float_le (x p) (x mx)
  /\ float_le (y mn) (y p) /\ float_le (y p) (y mx)
  /\ float_le (z mn) (z p) /\ float_le (z p) (z mx).

(** The widget with another colour. *)
Definition recolored (w : Plot3D) (color : QColor) : Plot3D :=
  {| m_index := m_index w; m_diffuseColor := color;
     m_geometry := m_geometry w;
     m_interpolationEnabled := m_interpolationEnabled w |}.

End Plot3D.

(** Whole-number coordinates and colours known by their name: enough to run
    the widget on concrete inputs. *)
Definition whole_numbers : Graphics := {|
  float := Z;
  float_lt := Z.ltb;
  float_ne := fun a b => negb (Z.eqb a b);
  float_zero := 0%Z;
  QColor := QString;
  colorNamed := fun name => name;
  invalidColor := EmptyString;
  number := Empty_set
|}.

(** Two points, a geometry object at the origin, and a widget that shows
    series 4 through geometry object 7. *)
Definition point (a b c : Z) : @QVector3D whole_numbers :=
  @Build_QVector3D whole_numbers a b c.

Definition two_points : list (@QVector3D whole_numbers) :=
  [point 1 5 2; point 3 0 (-1)].

Definition fresh_geometry : @Plot3DGeometry whole_numbers :=
  fst Plot3DGeometry_constructor.

Definition sample_plot : @Plot3D whole_numbers :=
  @Build_Plot3D whole_numbers 4%Z EmptyString (Some 7) true.

Definition palette : QJsonArray (@number whole_numbers) :=
  [JsonString "red"; JsonString "green"; JsonString "blue"]%string.

End Widgets.

(** ** Notions used to state further properties of the server *)

(** Every other entry of a list, the first one included. *)
Fixpoint alternate {A} (l : list A) : list A :=
  match l with
  | x :: _ :: rest => x :: alternate rest
  | _ => l
  end.

(** The sockets behind the non-null entries of [m_sockets]. *)
Definition live (sockets : list QTcpSocketPtr) : list QTcpSocket :=
  flat_map (fun socket => match socket with Some sock => [sock] | None => [] end)
           sockets.

(** The sockets a list of calls aborts, and the chunks it hands to the I/O
    manager, in call order. *)
Definition aborted (fx : list Effect) : list QTcpSocket :=
  flat_map (fun e => match e with SocketAbort sock => [sock] | _ => [] end) fx.

Definition manager_writes (fx : list Effect) : list QByteArray :=
  flat_map (fun e => match e with ManagerWriteData data => [data] | _ => [] end) fx.

(** Calls that neither send nor forward data: closing and deleting a socket,
    and logging. *)
Definition housekeeping (e : Effect) : bool :=
  match e with
  | SocketClose _ | SocketDeleteLater _ | DebugString _ | DebugError _ => true
  | _ => false
  end.

Section Histories.
Context {ext : Externals}.

Definition is_setEnabled (ev : Event) : bool :=
  match ev with callSetEnabled _ _ => true | _ => false end.

Definition tick_or_frame (ev : Event) : bool :=
  match ev with frameChanged _ | timeout1Hz _ => true | _ => false end.

(** The frames a history reports, in order. *)
Definition frames_of (evs : list Event) : list Frame :=
  flat_map (fun ev => match ev with frameChanged frame => [frame] | _ => [] end)
           evs.

(** A readable event per chunk: the sender and what its [readAll()] returns. *)
Definition reads (chunks : list (QTcpSocket * QByteArray)) : list Event :=
  map (fun chunk => readyRead (Some (fst chunk)) (fun _ => snd chunk)) chunks.

(** One incoming connection per socket. *)
Definition connections (sockets : list QTcpSocket) : list Event :=
  map (fun socket => newConnection (Some socket)) sockets.

End Histories.

(** * Properties *)

(** The sample Base64 on the test vectors of RFC 4648. *)
Example base64_rfc4648 :
  map (fun s => string_of_list_byte (Sample.base64 (Sample.bytes s)))
      [""; "f"; "fo"; "foo"; "foob"; "fooba"; "foobar"]%string
  = [""; "Zg=="; "Zm8="; "Zm9v"; "Zm9vYg=="; "Zm9vYmE="; "Zm9vYmFy"]%string.
Proof. reflexivity. Qed.

(** ** The loop of [removeConnection] *)

Lemma ptr_eqb_eq (a b : QTcpSocketPtr) : ptr_eqb a b = true <-> a = b.
Proof.
  destruct a as [x|], b as [y|]; cbn; try (split; congruence).
  rewrite Nat.eqb_eq. split; congruence.
Qed.

Lemma ptr_eqb_refl (a : QTcpSocketPtr) : ptr_eqb a a = true.
Proof. apply ptr_eqb_eq. reflexivity. Qed.

Lemma ptr_eqb_neq (a b : QTcpSocketPtr) : ptr_eqb a b = false <-> a <> b.
Proof.
  rewrite <- ptr_eqb_eq. destruct (ptr_eqb a b); split; congruence.
Qed.

Lemma others_In (socket x : QTcpSocketPtr) (l : list QTcpSocketPtr) :
  In x (others socket l) <-> In x l /\ x <> socket.
Proof.
  unfold others. rewrite filter_In, negb_true_iff, ptr_eqb_neq. reflexivity.
Qed.

Lemma others_absent (socket : QTcpSocketPtr) (l : list QTcpSocketPtr) :
  ~ In socket l -> others socket l = l.
Proof.
  induction l as [|x l IH]; cbn; intros Hnot; [reflexivity|].
  destruct (ptr_eqb x socket) eqn:E.
  - apply ptr_eqb_eq in E. subst. tauto.
  - cbn. f_equal. apply IH. tauto.
Qed.

Lemma at_split (l : list QTcpSocketPtr) (i : nat) :
  i < length l -> skipn i l = at_ l i :: skipn (S i) l.
Proof.
  revert i. induction l as [|x l IH]; intros [|i] Hi; cbn in *; try lia.
  - reflexivity.
  - apply IH. lia.
Qed.

Lemma firstn_S_at (l : list QTcpSocketPtr) (i : nat) :
  i < length l -> firstn (S i) l = firstn i l ++ [at_ l i].
Proof.
  revert i. induction l as [|x l IH]; intros [|i] Hi; cbn in *; try lia.
  - reflexivity.
  - f_equal. apply IH. lia.
Qed.

Lemma others_cons (socket x : QTcpSocketPtr) (l : list QTcpSocketPtr) :
  others socket (x :: l)
  = if ptr_eqb x socket then others socket l else x :: others socket l.
Proof. unfold others. cbn. destruct (ptr_eqb x socket); reflexivity. Qed.

Lemma others_app (socket : QTcpSocketPtr) (l1 l2 : list QTcpSocketPtr) :
  others socket (l1 ++ l2) = others socket l1 ++ others socket l2.
Proof. apply filter_app. Qed.

Lemma others_firstn (socket : QTcpSocketPtr) (k : nat) (l : list QTcpSocketPtr) :
  (forall j, j < k -> ptr_eqb (at_ l j) socket = false) ->
  others socket (firstn k l) = firstn k l.
Proof.
  revert l. induction k as [|k IH]; intros [|x l] H; cbn; try reflexivity.
  pose proof (H 0 ltac:(lia)) as H0. unfold at_ in H0. cbn in H0.
  rewrite H0. cbn. f_equal.
  apply IH. intros j Hj. apply (H (S j)). lia.
Qed.

(** From index [i >= 1] on, with nothing to remove at indices [1 .. i-1], the
    loop keeps the first [i] entries and removes every later occurrence. *)
Lemma removeConnection_loop_from (socket : QTcpSocketPtr) (i : nat)
  (sockets : list QTcpSocketPtr) :
  1 <= i ->
  (forall j, 1 <= j < i -> ptr_eqb (at_ sockets j) socket = false) ->
  removeConnection_loop socket i sockets
  = firstn i sockets ++ others socket (skipn i sockets).
Proof.
  funelim (removeConnection_loop socket i sockets); intros Hi Hbefore.
  - rewrite firstn_all2, skipn_all2 by lia. cbn. now rewrite app_nil_r.
  - match goal with IH : 1 <= 1 -> _ |- _ =>
      rewrite IH; [|lia|intros j Hj; lia] end.
    destruct sockets as [|x tl]; [cbn in *; lia|].
    destruct i as [|k]; [lia|].
    cbn in l. assert (Hk : k < length tl) by lia.
    assert (E : removeAt (S k) (x :: tl) = x :: (firstn k tl ++ skipn (S k) tl))
      by reflexivity.
    rewrite E, !firstn_cons, !skipn_cons, firstn_O, skipn_O.
    rewrite others_app, others_firstn.
    + rewrite (at_split tl k Hk).
      change (at_ tl k) with (at_ (x :: tl) (S k)).
      rewrite others_cons, Heq. reflexivity.
    + intros j Hj. apply (Hbefore (S j)). lia.
  - match goal with IH : 1 <= S i -> _ |- _ => rewrite IH; [|lia|] end.
    + rewrite firstn_S_at, (at_split sockets i l) by assumption.
      rewrite others_cons, Heq, <- app_assoc. reflexivity.
    + intros j Hj. destruct (Nat.eq_dec j i) as [->|Hne]; [assumption|].
      apply Hbefore. lia.
Qed.

(** What the whole loop does, from index 0: an occurrence at index 0 is
    removed and the scan resumes at index 1 of what is left, so the entry
    that has just moved to index 0 is never compared. *)
Lemma removeConnection_loop_0 (socket : QTcpSocketPtr)
  (sockets : list QTcpSocketPtr) :
  removeConnection_loop socket 0 sockets
  = match sockets with
    | [] => []
    | x :: tl =>
        if ptr_eqb x socket
        then firstn 1 tl ++ others socket (skipn 1 tl)
        else x :: others socket tl
    end.
Proof.
  destruct sockets as [|x tl]; simp removeConnection_loop; [reflexivity|].
  destruct (lt_dec 0 (length (x :: tl))) as [Hlt|Hge]; [|cbn in Hge; lia].
  cbn. change (at_ (x :: tl) 0) with x.
  destruct (ptr_eqb x socket) eqn:E; cbn.
  - change (removeAt 0 (x :: tl)) with tl.
    apply removeConnection_loop_from; [lia|intros j Hj; lia].
  - rewrite removeConnection_loop_from; [reflexivity|lia|intros j Hj; lia].
Qed.

(** On a list without repetition the loop removes the socket. *)
Lemma removeConnection_loop_NoDup (socket : QTcpSocketPtr)
  (sockets : list QTcpSocketPtr) :
  NoDup sockets -> removeConnection_loop socket 0 sockets = others socket sockets.
Proof.
  intros Hnd. rewrite removeConnection_loop_0.
  destruct sockets as [|x tl]; [reflexivity|].
  rewrite others_cons. destruct (ptr_eqb x socket) eqn:E; [|reflexivity].
  apply ptr_eqb_eq in E. subst x. inversion_clear Hnd as [|? ? Hnot _].
  rewrite (others_absent socket tl Hnot), others_absent, firstn_skipn;
    [reflexivity|].
  intros Hin. apply Hnot. rewrite <- (firstn_skipn 1 tl).
  apply in_or_app. now right.
Qed.

(** The loop never adds an entry. *)
Lemma removeConnection_loop_incl (socket x : QTcpSocketPtr)
  (sockets : list QTcpSocketPtr) :
  In x (removeConnection_loop socket 0 sockets) -> In x sockets.
Proof.
  rewrite removeConnection_loop_0. destruct sockets as [|y tl]; [tauto|].
  destruct (ptr_eqb y socket).
  - intros Hin. right. rewrite <- (firstn_skipn 1 tl).
    apply in_app_or in Hin. apply in_or_app.
    destruct Hin as [Hin|Hin]; [now left|right].
    apply others_In in Hin. tauto.
  - intros [->|Hin]; [now left|right]. apply others_In in Hin. tauto.
Qed.

Lemma others_NoDup (socket : QTcpSocketPtr) (l : list QTcpSocketPtr) :
  NoDup l -> NoDup (others socket l).
Proof. apply NoDup_filter. Qed.

(** Were a socket listed twice at the head, the resumed scan would step over
    the second entry; [admissible] histories never list a socket twice. *)
Example removeConnection_loop_repeated_head :
  removeConnection_loop (Some 1) 0 [Some 1; Some 1; Some 2] = [Some 1; Some 2].
Proof. reflexivity. Qed.

(** When every abort disconnects under the loop, the entry that slides into
    the freed index is stepped over and never aborted. *)
Example setEnabled_loop_steps_over :
  snd (setEnabled_loop (fun _ => true) 0 [Some 1; Some 2; Some 3])
  = [SocketAbort 1; SocketDeleteLater 1; SocketDeleteLater 1;
     SocketAbort 3; SocketDeleteLater 3; SocketDeleteLater 3].
Proof. reflexivity. Qed.

Section Properties.
Context {ext : Externals}.

(** ** Invariants of the event loop *)

Lemma registered_In (socket : QTcpSocket) (s : Server) :
  registered socket s = true <-> In (Some socket) (m_sockets s).
Proof.
  unfold registered. rewrite existsb_exists. split.
  - intros (x & Hin & E). apply ptr_eqb_eq in E. now subst.
  - intros Hin. exists (Some socket). split; [assumption|apply ptr_eqb_refl].
Qed.

Lemma registered_false (socket : QTcpSocket) (s : Server) :
  registered socket s = false <-> ~ In (Some socket) (m_sockets s).
Proof.
  rewrite <- registered_In. destruct (registered socket s); split; congruence.
Qed.

(** Case analysis on the guards of a slot. *)
Ltac guards :=
  repeat match goal with
         | |- context [if ?c then _ else _] => destruct c eqn:?
         | |- context [match ?x with Some _ => _ | None => _ end] =>
             destruct x eqn:?
         end;
  cbn [fst snd m_enabled m_sockets m_frames with_sockets with_frames] in *.

Lemma handle_quiet (ev : Event) (s : Server) :
  quiet s -> quiet (fst (handle ev s)).
Proof.
  unfold quiet, enabled. intros Hq.
  destruct ev as [frame|w|data w|pending|sender readAll|sender|sender e es|b o];
    cbn [handle].
  - unfold registerFrame, enabled.
    destruct (m_enabled s) eqn:E; guards; intros; try congruence; auto.
  - unfold sendProcessedData, enabled.
    destruct (m_enabled s) eqn:E; cbn [negb]; guards; intros;
      try congruence; auto.
  - unfold sendRawData, enabled.
    destruct (m_enabled s) eqn:E; cbn [negb]; guards; intros;
      try congruence; auto.
  - unfold acceptConnection, enabled.
    destruct pending, (m_enabled s) eqn:E; cbn; intros; try congruence; auto.
  - unfold onDataReceived, enabled.
    destruct (m_enabled s) eqn:E, sender; cbn; intros; try congruence; auto.
  - unfold removeConnection. destruct sender as [socket|]; cbn; [|assumption].
    intros Hd. destruct (Hq Hd) as [-> ->].
    simp removeConnection_loop. auto.
  - unfold onErrorOccurred. destruct sender; assumption.
  - unfold setEnabled. destruct b; cbn; [congruence|auto].
Qed.

Lemma handle_distinct (ev : Event) (s : Server) :
  fresh ev s = true -> distinct s -> distinct (fst (handle ev s)).
Proof.
  unfold distinct. intros Hf [Hnd Hnn].
  destruct ev as [frame|w|data w|pending|sender readAll|sender|sender e es|b o];
    cbn [handle].
  - unfold registerFrame. guards; auto.
  - unfold sendProcessedData. guards; auto.
  - unfold sendRawData. guards; auto.
  - unfold acceptConnection.
    destruct pending as [socket|], (enabled s); cbn; auto.
    cbn in Hf. apply negb_true_iff, registered_false in Hf. split.
    + apply NoDup_app; [assumption|repeat constructor; cbn; tauto|].
      intros x Hx [<-|[]]. contradiction.
    + rewrite in_app_iff. cbn. intros [?|[?|[]]]; [contradiction|discriminate].
  - unfold onDataReceived. destruct (enabled s), sender; cbn; auto.
  - unfold removeConnection. destruct sender as [socket|]; cbn; auto.
    rewrite removeConnection_loop_NoDup by assumption. split.
    + now apply others_NoDup.
    + rewrite others_In. tauto.
  - unfold onErrorOccurred. destruct sender; cbn; auto.
  - unfold setEnabled. destruct b; cbn; auto. split; [constructor|tauto].
Qed.

Lemma run_quiet (evs : list Event) (s : Server) :
  quiet s -> quiet (fst (run evs s)).
Proof.
  revert s. induction evs as [|ev evs IH]; intros s Hq; cbn; [assumption|].
  apply IH, handle_quiet, Hq.
Qed.

Lemma run_distinct (evs : list Event) (s : Server) :
  admissible evs s = true -> distinct s -> distinct (fst (run evs s)).
Proof.
  revert s. induction evs as [|ev evs IH]; intros s Ha Hd; cbn; [assumption|].
  cbn in Ha. apply andb_true_iff in Ha as [Hf Ha].
  apply IH; [assumption|]. now apply handle_distinct.
Qed.

Lemma initial_quiet : quiet initial.
Proof. intros _. split; reflexivity. Qed.

Lemma initial_distinct : distinct initial.
Proof. split; [constructor|intros []]. Qed.

Lemma after_quiet (history : list Event) : quiet (after history).
Proof. apply run_quiet, initial_quiet. Qed.

Lemma after_distinct (history : list Event) :
  admissible history initial = true -> distinct (after history).
Proof. intros Ha. apply run_distinct; [assumption|apply initial_distinct]. Qed.

Lemma run_app (evs1 evs2 : list Event) (s : Server) :
  run (evs1 ++ evs2) s
  = (fst (run evs2 (fst (run evs1 s))),
     snd (run evs1 s) ++ snd (run evs2 (fst (run evs1 s)))).
Proof.
  revert s. induction evs1 as [|ev evs1 IH]; intros s; cbn.
  - now destruct (run evs2 s).
  - rewrite IH. cbn. now rewrite app_assoc.
Qed.

(** ** What the two senders write *)


Lemma writes_to_app (socket : QTcpSocket) (fx1 fx2 : list Effect) :
  writes_to socket (fx1 ++ fx2) = writes_to socket fx1 ++ writes_to socket fx2.
Proof. apply flat_map_app. Qed.

Lemma foreach_write_cons (w : QTcpSocket -> bool) (json : QByteArray)
  (x : QTcpSocketPtr) (l : list QTcpSocketPtr) :
  foreach_write w json (x :: l)
  = match x with
    | None => []
    | Some sock => if w sock then [SocketWrite sock json] else []
    end ++ foreach_write w json l.
Proof. reflexivity. Qed.

Lemma writes_to_foreach_absent (socket : QTcpSocket) (w : QTcpSocket -> bool)
  (json : QByteArray) (l : list QTcpSocketPtr) :
  ~ In (Some socket) l -> writes_to socket (foreach_write w json l) = [].
Proof.
  induction l as [|x l IH]; intros Hnot; [reflexivity|].
  rewrite foreach_write_cons, writes_to_app, IH by (cbn in Hnot; tauto).
  rewrite app_nil_r. destruct x as [sock|]; [|reflexivity].
  destruct (w sock); [|reflexivity]. cbn.
  destruct (Nat.eqb_spec sock socket) as [->|]; [|reflexivity].
  cbn in Hnot. tauto.
Qed.

Lemma writes_to_foreach_unwritable (socket : QTcpSocket)
  (w : QTcpSocket -> bool) (json : QByteArray) (l : list QTcpSocketPtr) :
  w socket = false -> writes_to socket (foreach_write w json l) = [].
Proof.
  intros Hw. induction l as [|x l IH]; [reflexivity|].
  rewrite foreach_write_cons, writes_to_app, IH, app_nil_r.
  destruct x as [sock|]; [|reflexivity].
  destruct (w sock) eqn:E; [|reflexivity]. cbn.
  destruct (Nat.eqb_spec sock socket) as [->|]; [congruence|reflexivity].
Qed.

Lemma writes_to_foreach_present (socket : QTcpSocket) (w : QTcpSocket -> bool)
  (json : QByteArray) (l : list QTcpSocketPtr) :
  NoDup l -> In (Some socket) l -> w socket = true ->
  writes_to socket (foreach_write w json l) = [json].
Proof.
  intros Hnd Hin Hw. induction l as [|x l IH]; [destruct Hin|].
  inversion_clear Hnd as [|? ? Hx Hl].
  rewrite foreach_write_cons, writes_to_app. destruct Hin as [->|Hin].
  - rewrite Hw, writes_to_foreach_absent by assumption.
    cbn. now rewrite Nat.eqb_refl.
  - rewrite IH by assumption. destruct x as [sock|]; [|reflexivity].
    destruct (w sock); [|reflexivity]. cbn.
    destruct (Nat.eqb_spec sock socket) as [->|]; [contradiction|reflexivity].
Qed.

Lemma foreach_write_only_writes (w : QTcpSocket -> bool) (json : QByteArray)
  (l : list QTcpSocketPtr) :
  Forall (write_of w json l) (foreach_write w json l).
Proof.
  induction l as [|x l IH]; [constructor|].
  rewrite foreach_write_cons. apply Forall_app. split.
  - destruct x as [sock|]; [|constructor].
    destruct (w sock) eqn:E; constructor; [|constructor].
    exists sock. cbn. auto.
  - eapply Forall_impl; [|exact IH].
    intros e (sock & -> & Hin & Hw). exists sock. cbn. auto.
Qed.

(** ** The periodic broadcast *)

Lemma sendProcessedData_state (w : QTcpSocket -> bool) (s : Server) :
  fst (sendProcessedData w s)
  = if enabled s && (1 <=? length (m_sockets s)) then with_frames s [] else s.
Proof.
  unfold sendProcessedData. destruct (enabled s); cbn [negb andb]; [|reflexivity].
  destruct s as [e sockets frames]. cbn [m_frames m_sockets].
  destruct frames as [|f frames], sockets as [|x sockets]; reflexivity.
Qed.

Lemma sendRawData_effects (w : QTcpSocket -> bool) (data : QByteArray)
  (s : Server) :
  sendRawData w data s
  = (s, if enabled s then foreach_write w (raw_json data) (m_sockets s) else []).
Proof.
  unfold sendRawData. destruct (enabled s); cbn [negb]; [|reflexivity].
  destruct (m_sockets s); reflexivity.
Qed.

Lemma drained_silent (w : QTcpSocket -> bool) (s : Server) :
  drained s -> snd (sendProcessedData w s) = [].
Proof.
  unfold drained, sendProcessedData. intros [H|[H|H]]; rewrite H.
  - now destruct (enabled s).
  - destruct (enabled s); [|reflexivity]. cbn [negb].
    now destruct (length (m_frames s) <=? 0).
  - reflexivity.
Qed.

Lemma sendProcessedData_drained (w : QTcpSocket -> bool) (s : Server) :
  drained (fst (sendProcessedData w s)).
Proof.
  rewrite sendProcessedData_state. unfold drained.
  destruct (enabled s) eqn:E; cbn [andb]; [|auto].
  destruct (m_sockets s) eqn:Es; cbn; auto.
Qed.

Lemma handle_drained (ev : Event) (s : Server) :
  adds_nothing ev = true -> drained s -> drained (fst (handle ev s)).
Proof.
  intros Hev Hd.
  destruct ev as [frame|w|data w|pending|sender readAll|sender|sender e es|b o];
    try discriminate; cbn [handle].
  - destruct (sendProcessedData_drained w s) as [H|[H|H]]; unfold drained; auto.
  - now rewrite sendRawData_effects.
  - unfold onDataReceived. now destruct (enabled s), sender.
  - unfold removeConnection. destruct sender as [sock|]; [|assumption].
    destruct Hd as [H|[H|H]]; unfold drained; cbn; auto.
    right. left. rewrite H. now simp removeConnection_loop.
  - unfold onErrorOccurred. now destruct sender.
  - unfold setEnabled, drained. cbn. auto.
Qed.

Lemma run_drained (evs : list Event) (s : Server) :
  forallb adds_nothing evs = true -> drained s -> drained (fst (run evs s)).
Proof.
  revert s. induction evs as [|ev evs IH]; intros s Hevs Hd; [assumption|].
  cbn in Hevs. apply andb_true_iff in Hevs as [Hev Hevs].
  cbn [run fst]. apply IH; [assumption|]. now apply handle_drained.
Qed.

(** C1 (amended): after [sendProcessedData] the pending frame buffer is empty
    when the server is enabled and tracks at least one connection; when the
    server is disabled or tracks no connection the buffer keeps its frames.
    A second tick, with no frame registered and no connection accepted in
    between, writes nothing. *)
Theorem sendProcessedData_buffer_after_tick (w : QTcpSocket -> bool) (s : Server)
  (between : list Event) (w' : QTcpSocket -> bool) :
  forallb adds_nothing between = true ->
  m_frames (fst (sendProcessedData w s))
  = (if enabled s && (1 <=? length (m_sockets s)) then [] else m_frames s)
  /\ snd (sendProcessedData w' (fst (run between (fst (sendProcessedData w s)))))
     = [].
Proof.
  intros Hquiet. split.
  - rewrite sendProcessedData_state.
    destruct (enabled s && (1 <=? length (m_sockets s))); reflexivity.
  - apply drained_silent, run_drained; [assumption|].
    apply sendProcessedData_drained.
Qed.




(** ** Enabling and disabling *)

(** C3 (amended): [setEnabled(true)] sets the flag, leaves the registered
    sockets as they are and aborts none of them, and clears the pending frame
    buffer. *)
Theorem setEnabled_true_clears_frames_only (abortDisconnects : QTcpSocket -> bool)
  (s : Server) :
  setEnabled abortDisconnects true s
  = ({| m_enabled := true; m_sockets := m_sockets s; m_frames := [] |},
     [EnabledChanged]).
Proof. reflexivity. Qed.

(** Enabling a server that is disabled changes the flag and nothing else:
    its frame buffer was empty already. *)
Lemma setEnabled_true_from_disabled (history : list Event)
  (abortDisconnects : QTcpSocket -> bool) :
  enabled (after history) = false ->
  fst (setEnabled abortDisconnects true (after history))
  = {| m_enabled := true; m_sockets := m_sockets (after history);
       m_frames := m_frames (after history) |}.
Proof.
  intros Hd. destruct (after_quiet history Hd) as [_ Hf].
  unfold setEnabled. cbn. now rewrite Hf.
Qed.

(** C5: [setEnabled(false)] leaves a disabled server with no registered
    socket and no pending frame, from every state and whatever the aborted
    sockets do. *)
Theorem setEnabled_false_empties (abortDisconnects : QTcpSocket -> bool)
  (s : Server) :
  fst (setEnabled abortDisconnects false s)
  = {| m_enabled := false; m_sockets := []; m_frames := [] |}.
Proof. reflexivity. Qed.

(** When no abort disconnects under the loop, every registered socket is
    aborted and scheduled for deletion, in list order. *)
Lemma setEnabled_loop_plain (i : nat) (sockets : list QTcpSocketPtr) :
  snd (setEnabled_loop (fun _ => false) i sockets)
  = flat_map (fun socket =>
                match socket with
                | Some sock => [SocketAbort sock; SocketDeleteLater sock]
                | None => []
                end) (skipn i sockets).
Proof.
  funelim (setEnabled_loop (fun _ => false) i sockets);
    try discriminate.
  - now rewrite skipn_all2 by lia.
  - rewrite (at_split sockets i l), Heq. cbn [flat_map app]. exact H.
  - rewrite (at_split sockets i l), Heq0. cbn [flat_map app snd].
    do 2 f_equal. exact H.
Qed.

(** The loop writes to no socket. *)
Lemma setEnabled_loop_writes (socket : QTcpSocket)
  (abortDisconnects : QTcpSocket -> bool) (i : nat)
  (sockets : list QTcpSocketPtr) :
  writes_to socket (snd (setEnabled_loop abortDisconnects i sockets)) = [].
Proof.
  funelim (setEnabled_loop abortDisconnects i sockets);
    cbn [snd]; try reflexivity; try apply H.
Qed.

Lemma setEnabled_writes (socket : QTcpSocket)
  (abortDisconnects : QTcpSocket -> bool) (enabled : bool) (s : Server) :
  writes_to socket (snd (setEnabled abortDisconnects enabled s)) = [].
Proof.
  unfold setEnabled. destruct enabled; cbn; [reflexivity|].
  apply setEnabled_loop_writes.
Qed.

(** ** The reverse channel *)

(** C4 (amended): on a readable-data event from a socket, an enabled server
    reads everything the socket has available and hands exactly those bytes
    to the I/O manager, once; a disabled server does nothing at all -- the
    bytes are not read, nothing is forwarded, no socket is closed.  The
    server's state is unchanged either way. *)
Theorem onDataReceived_forwards_when_enabled (socket : QTcpSocket)
  (readAll : QTcpSocket -> QByteArray) (s : Server) :
  onDataReceived (Some socket) readAll s
  = (s, if enabled s
        then [SocketReadAll socket; ManagerWriteData (readAll socket)]
        else []).
Proof. unfold onDataReceived. now destruct (enabled s). Qed.

(** ** Frames while disabled *)

(** C6: after every history of events, a disabled server has an empty frame
    buffer; a frame-ready event then changes nothing and calls nothing, and
    whatever happens later -- re-enabling and ticks included -- runs exactly
    as if that frame had never been reported. *)
Theorem disabled_server_drops_frames (history : list Event) (frame : Frame)
  (later : list Event) :
  let s := after history in
  enabled s = false ->
  m_frames s = []
  /\ registerFrame frame s = (s, [])
  /\ run (frameChanged frame :: later) s = run later s.
Proof.
  intros s Hd. destruct (after_quiet history Hd) as [_ Hf].
  assert (Hr : registerFrame frame s = (s, []))
    by (unfold registerFrame; now rewrite Hd).
  repeat split; try assumption.
  cbn [run handle]. rewrite Hr. cbn. now destruct (run later s).
Qed.

(** ** Raw passthrough *)

(** C7: a raw-bytes-ready event leaves the server's state (the frame buffer
    included) as it was and its writes do not depend on the frame buffer.  On
    an enabled server it makes one payload -- the compact JSON of the object
    whose only field ["data"] is the Base64 text of the chunk, followed by a
    newline -- and writes it, at once, exactly once to every registered socket
    that is writable and to no other; on a disabled server it writes
    nothing. *)
Theorem sendRawData_immediate (history : list Event) (data : QByteArray)
  (w : QTcpSocket -> bool) :
  let s := after history in
  let payload :=
    toJson [("data"%string, JsonString (fromUtf8 (toBase64 data)))] ++ newline in
  let sent := snd (sendRawData w data s) in
  admissible history initial = true ->
  fst (sendRawData w data s) = s
  /\ (forall frames, snd (sendRawData w data (with_frames s frames)) = sent)
  /\ (enabled s = false -> sent = [])
  /\ (enabled s = true ->
      Forall (write_of w payload (m_sockets s)) sent
      /\ (forall socket, registered socket s = true -> w socket = true ->
           writes_to socket sent = [payload])
      /\ (forall socket, w socket = false -> writes_to socket sent = [])).
Proof.
  intros s payload sent Hadm.
  pose proof (after_distinct history Hadm) as [Hnd _]. fold s in Hnd.
  subst sent. rewrite sendRawData_effects. cbn [fst snd].
  split; [reflexivity|]. split; [|split].
  - intros frames. now rewrite sendRawData_effects.
  - now intros ->.
  - intros ->. split; [|split].
    + apply foreach_write_only_writes.
    + intros socket Hreg Hw. apply writes_to_foreach_present; try assumption.
      now apply registered_In.
    + intros socket Hw. now apply writes_to_foreach_unwritable.
Qed.

(** ** Disconnection *)

(** A socket that is not registered stays so, and is not written to, through
    every event that does not accept it. *)
Lemma handle_unregistered (socket : QTcpSocket) (ev : Event) (s : Server) :
  registered socket s = false -> accepts socket ev = false ->
  registered socket (fst (handle ev s)) = false
  /\ writes_to socket (snd (handle ev s)) = [].
Proof.
  intros Hreg Hacc.
  destruct ev as [frame|w|data w|pending|sender readAll|sender|sender e es|b o];
    cbn [handle].
  - unfold registerFrame. destruct (enabled s); auto.
  - split.
    + rewrite sendProcessedData_state.
      destruct (enabled s && (1 <=? length (m_sockets s))); assumption.
    + unfold sendProcessedData. guards; try reflexivity.
      apply writes_to_foreach_absent. now apply registered_false.
  - rewrite sendRawData_effects. split; [assumption|]. cbn [snd].
    destruct (enabled s); [|reflexivity].
    apply writes_to_foreach_absent. now apply registered_false.
  - unfold acceptConnection.
    destruct pending as [sock|], (enabled s); cbn; auto.
    split; [|reflexivity]. unfold registered in *. cbn.
    rewrite existsb_app, Hreg. cbn. cbn in Hacc.
    now rewrite Nat.eqb_sym, Hacc.
  - unfold onDataReceived. destruct (enabled s), sender; auto.
  - unfold removeConnection. destruct sender as [sock|]; auto.
    split; [|reflexivity]. apply registered_false.
    cbn [fst m_sockets with_sockets]. intros Hin. apply removeConnection_loop_incl in Hin.
    now apply registered_false in Hreg.
  - unfold onErrorOccurred. destruct sender; auto.
  - split; [|apply setEnabled_writes].
    unfold setEnabled. destruct b; cbn; [assumption|reflexivity].
Qed.

Lemma run_unregistered (socket : QTcpSocket) (evs : list Event) (s : Server) :
  registered socket s = false -> existsb (accepts socket) evs = false ->
  registered socket (fst (run evs s)) = false
  /\ writes_to socket (snd (run evs s)) = [].
Proof.
  revert s. induction evs as [|ev evs IH]; intros s Hreg Hacc; [now split|].
  cbn in Hacc. apply orb_false_iff in Hacc as [Hev Hevs].
  destruct (handle_unregistered socket ev s Hreg Hev) as [Hreg' Hw].
  destruct (IH _ Hreg' Hevs) as [Hreg'' Hw'].
  cbn [run fst snd]. now rewrite writes_to_app, Hw, Hw'.
Qed.

(** C8: when a socket reports [disconnected], [removeConnection] takes it
    out of the registered sockets, and from then on -- through ticks, raw
    passthrough and every other event, as long as that socket is not handed
    out again by [nextPendingConnection] -- it stays out and nothing is
    written to it. *)
Theorem disconnected_socket_is_never_written (history : list Event)
  (socket : QTcpSocket) (later : list Event) :
  let s := fst (removeConnection (Some socket) (after history)) in
  admissible history initial = true ->
  existsb (accepts socket) later = false ->
  registered socket s = false
  /\ registered socket (fst (run later s)) = false
  /\ writes_to socket (snd (run later s)) = [].
Proof.
  intros s Hadm Hacc.
  pose proof (after_distinct history Hadm) as [Hnd _].
  assert (Hreg : registered socket s = false).
  { apply registered_false. subst s. cbn [removeConnection fst m_sockets with_sockets].
    rewrite removeConnection_loop_NoDup by assumption.
    rewrite others_In. tauto. }
  split; [assumption|]. now apply run_unregistered.
Qed.

(** ** Socket errors *)

(** C9: a socket error only writes one line to the debug log -- the socket's
    error string, or the numeric error code when there is no sender socket to
    ask -- and leaves the server's state (flag, registered sockets, frames)
    as it was: no socket is removed, closed or aborted. *)
Theorem onErrorOccurred_only_logs (sender : QTcpSocketPtr)
  (socketError : SocketError) (errorString : QTcpSocket -> QString)
  (s : Server) :
  onErrorOccurred sender socketError errorString s
  = (s, [match sender with
         | Some socket => DebugString (errorString socket)
         | None => DebugError socketError
         end]).
Proof. now destruct sender. Qed.

(** ** The connection set under the two senders *)

(** C10: [sendProcessedData] and [sendRawData] leave [m_sockets] exactly as
    it was, and every call they make is a write to a registered, non-null,
    writable socket: null and unwritable entries are skipped, not removed. *)
Theorem senders_keep_connections (w : QTcpSocket -> bool) (data : QByteArray)
  (s : Server) :
  m_sockets (fst (sendProcessedData w s)) = m_sockets s
  /\ m_sockets (fst (sendRawData w data s)) = m_sockets s
  /\ Forall (write_of w (frames_json (frames_array (m_frames s))) (m_sockets s))
        (snd (sendProcessedData w s))
  /\ Forall (write_of w (raw_json data) (m_sockets s))
        (snd (sendRawData w data s)).
Proof.
  repeat split.
  - rewrite sendProcessedData_state.
    now destruct (enabled s && (1 <=? length (m_sockets s))).
  - now rewrite sendRawData_effects.
  - unfold sendProcessedData. guards; try constructor.
    apply foreach_write_only_writes.
  - rewrite sendRawData_effects. cbn [snd].
    destruct (enabled s); [apply foreach_write_only_writes|constructor].
Qed.

End Properties.

(** Witness of C1 (amended): frames wait while no plugin is connected, and
    the second tick, after a readable event and a socket error, is silent. *)
Lemma sendProcessedData_buffer_after_tick_witness :
  let s := after [callSetEnabled true Scenario.never; frameChanged "f1"%string] in
  let between :=
    [readyRead (Some 1) (fun _ => Sample.bytes "x"); errorOccurred None 1%Z (fun _ => EmptyString)] in
  m_frames (fst (sendProcessedData Scenario.always s)) = ["f1"%string]
  /\ snd (sendProcessedData Scenario.always
            (fst (run between (fst (sendProcessedData Scenario.always s))))) = [].
Proof.
  exact (sendProcessedData_buffer_after_tick Scenario.always
           (after [callSetEnabled true Scenario.never; frameChanged "f1"%string])
           [readyRead (Some 1) (fun _ => Sample.bytes "x");
            errorOccurred None 1%Z (fun _ => EmptyString)]
           Scenario.always eq_refl).
Defined.

(** Counterexample to C1 as stated: with the server enabled, one frame
    pending and no plugin connected, the tick leaves the frame in the buffer;
    once a plugin connects, the next tick -- no frame having been registered in
    between -- writes that frame to it. *)
Lemma tick_without_connection_keeps_frames :
  let s := after [callSetEnabled true Scenario.never; frameChanged "f1"%string] in
  m_frames (fst (sendProcessedData Scenario.always s)) = ["f1"%string]
  /\ writes_to 1
       (snd (run [timeout1Hz Scenario.always; newConnection (Some 1);
                  timeout1Hz Scenario.always] s))
     = [frames_json (frames_array ["f1"%string])].
Proof. split; reflexivity. Qed.



(** Counterexample to C3 as stated: [setEnabled(true)] on an enabled server
    with a pending frame empties the buffer. *)
Lemma setEnabled_true_drops_pending_frames :
  let s := after (Scenario.two_plugins ++ [frameChanged "f1"%string]) in
  m_frames s = ["f1"%string]
  /\ m_frames (fst (setEnabled Scenario.never true s)) = [].
Proof. split; reflexivity. Qed.

(** Counterexample to C4 as stated: two plugins connect; the server is then
    disabled while each abort re-enters [removeConnection], so that the loop
    steps over socket 2: it was registered by [acceptConnection], and no call
    has aborted, closed or deleted it.  Its next readable event reaches the
    disabled server, which makes no call at all: the bytes are not read. *)
Lemma onDataReceived_disabled_reads_nothing :
  let history := Scenario.two_plugins ++ [callSetEnabled false Scenario.always] in
  let disabling :=
    snd (setEnabled Scenario.always false (after Scenario.two_plugins)) in
  let calls :=
    snd (onDataReceived (Some 2) (fun _ => Sample.bytes "abc") (after history)) in
  admissible history initial = true
  /\ registered 2 (after Scenario.two_plugins) = true
  /\ disabling = [EnabledChanged; SocketAbort 1; SocketDeleteLater 1;
                  SocketDeleteLater 1]
  /\ enabled (after history) = false
  /\ calls = [] /\ ~ In (SocketReadAll 2) calls.
Proof. repeat split; intros []. Qed.

(** Witness of C6: a frame reported to the server as constructed (disabled)
    leaves no trace once the server is enabled and ticks. *)
Lemma disabled_server_drops_frames_witness :
  let later :=
    [callSetEnabled true Scenario.never; newConnection (Some 1);
     timeout1Hz Scenario.always] in
  m_frames (after []) = []
  /\ registerFrame "f1"%string (after []) = (after [], [])
  /\ run (frameChanged "f1"%string :: later) (after []) = run later (after []).
Proof.
  exact (disabled_server_drops_frames [] "f1"%string
           [callSetEnabled true Scenario.never; newConnection (Some 1);
            timeout1Hz Scenario.always] eq_refl).
Defined.

(** Witness of C7: a two-byte chunk goes to socket 1 at once and not to the
    unwritable socket 2. *)
Lemma sendRawData_immediate_witness :
  let s := after Scenario.two_plugins in
  let sent := snd (sendRawData Scenario.only1 (Sample.bytes "hi") s) in
  fst (sendRawData Scenario.only1 (Sample.bytes "hi") s) = s
  /\ writes_to 1 sent
     = [toJson [("data"%string,
                 JsonString (fromUtf8 (toBase64 (Sample.bytes "hi"))))]
          ++ newline]
  /\ writes_to 2 sent = [].
Proof.
  destruct (sendRawData_immediate Scenario.two_plugins (Sample.bytes "hi")
              Scenario.only1 eq_refl)
    as (Hstate & _ & _ & Henabled).
  destruct (Henabled eq_refl) as (_ & Hwritable & Hblocked).
  split; [exact Hstate|].
  split; [apply Hwritable; reflexivity|apply Hblocked; reflexivity].
Defined.

(** Witness of C8: socket 1 disconnects; a frame, a tick and a raw chunk
    later, nothing has been written to it. *)
Lemma disconnected_socket_witness :
  let s := fst (removeConnection (Some 1) (after Scenario.two_plugins)) in
  let later :=
    [frameChanged "f1"%string; timeout1Hz Scenario.always;
     dataReceived (Sample.bytes "hi") Scenario.always] in
  registered 1 s = false
  /\ registered 1 (fst (run later s)) = false
  /\ writes_to 1 (snd (run later s)) = [].
Proof.
  exact (disconnected_socket_is_never_written Scenario.two_plugins 1
           [frameChanged "f1"%string; timeout1Hz Scenario.always;
            dataReceived (Sample.bytes "hi") Scenario.always] eq_refl eq_refl).
Defined.

(** * Further properties of the server *)

Section ServerExtras.
Context {ext : Externals}.

(** X1: after every history of events a disabled server tracks no
    connection. *)
Theorem disabled_server_tracks_no_connection (history : list Event) :
  enabled (after history) = false -> m_sockets (after history) = [].
Proof. intros Hd. now destruct (after_quiet history Hd). Qed.

(** A socket listed in [m_sockets] always finds the server enabled. *)
Lemma registered_socket_finds_server_enabled (history : list Event)
  (socket : QTcpSocket) :
  registered socket (after history) = true -> enabled (after history) = true.
Proof.
  intros Hreg. destruct (enabled (after history)) eqn:Hen; [reflexivity|].
  destruct (after_quiet history Hen) as [Hs _].
  unfold registered in Hreg. now rewrite Hs in Hreg.
Qed.

(** X2: as long as [nextPendingConnection()] hands out new socket objects, no
    socket is registered twice and no registered entry is null. *)
Theorem registered_sockets_are_distinct (history : list Event) :
  admissible history initial = true ->
  NoDup (m_sockets (after history)) /\ ~ In None (m_sockets (after history)).
Proof. apply after_distinct. Qed.

Lemma others_length (x : QTcpSocketPtr) (l : list QTcpSocketPtr) :
  NoDup l -> In x l -> S (length (others x l)) = length l.
Proof.
  induction l as [|y l IH]; intros Hnd Hin; [destruct Hin|].
  inversion_clear Hnd as [|? ? Hy Hl]. rewrite others_cons.
  destruct (ptr_eqb y x) eqn:E.
  - apply ptr_eqb_eq in E. subst y. now rewrite others_absent.
  - destruct Hin as [->|Hin]; [now rewrite ptr_eqb_refl in E|].
    cbn. now rewrite IH.
Qed.

(** X3: on a server whose sockets are distinct, [removeConnection] takes
    out the sender and keeps every other socket, in order; the list gets
    shorter by one when the sender was registered. *)
Theorem removeConnection_removes_only_sender (history : list Event)
  (socket : QTcpSocket) :
  let s := after history in
  let s' := fst (removeConnection (Some socket) s) in
  admissible history initial = true ->
  m_sockets s' = filter (fun x => negb (ptr_eqb x (Some socket))) (m_sockets s)
  /\ m_enabled s' = m_enabled s /\ m_frames s' = m_frames s
  /\ (registered socket s = true -> S (length (m_sockets s')) = length (m_sockets s)).
Proof.
  intros s s' Hadm. destruct (after_distinct history Hadm) as [Hnd _].
  fold s in Hnd. subst s'. cbn [removeConnection fst m_sockets with_sockets].
  rewrite removeConnection_loop_NoDup by assumption.
  repeat split. intros Hreg. apply others_length; [assumption|].
  now apply registered_In.
Qed.

(** X4: on any list, the socket is still listed after the loop of
    [removeConnection] exactly when the list began with two entries of it. *)
Theorem removeConnection_loop_leaves_sender (socket : QTcpSocketPtr)
  (sockets : list QTcpSocketPtr) :
  In socket (removeConnection_loop socket 0 sockets)
  <-> exists rest, sockets = socket :: socket :: rest.
Proof.
  rewrite removeConnection_loop_0. destruct sockets as [|x tl].
  - split; [intros []|intros [rest H]; discriminate].
  - destruct (ptr_eqb x socket) eqn:E.
    + apply ptr_eqb_eq in E. subst x. rewrite in_app_iff, others_In. split.
      * intros [Hin|[_ Hne]]; [|congruence].
        destruct tl as [|y rest]; [destruct Hin|].
        destruct Hin as [->|[]]. now exists rest.
      * intros [rest H]. injection H as ->. left. now left.
    + apply ptr_eqb_neq in E. split.
      * intros [->|Hin]; [congruence|]. apply others_In in Hin. tauto.
      * intros [rest H]. congruence.
Qed.

(** X5: while the server is disabled, every event other than a call of
    [setEnabled] leaves its state as it is and makes only housekeeping
    calls: nothing is written to a socket or to the I/O manager. *)
Theorem disabled_server_is_inert (history : list Event) (ev : Event) :
  let s := after history in
  enabled s = false -> is_setEnabled ev = false ->
  fst (handle ev s) = s /\ forallb housekeeping (snd (handle ev s)) = true.
Proof.
  intros s Hd Hev. destruct (after_quiet history Hd) as [Hs Hf]. fold s in Hs, Hf.
  destruct ev as [frame|w|data w|pending|sender readAll|sender|sender e es|b o];
    try discriminate; cbn [handle].
  - unfold registerFrame. now rewrite Hd.
  - unfold sendProcessedData. now rewrite Hd.
  - unfold sendRawData. now rewrite Hd.
  - unfold acceptConnection. rewrite Hd. now destruct pending.
  - unfold onDataReceived. rewrite Hd. now destruct sender.
  - unfold removeConnection. destruct sender as [sock|]; [|now split].
    rewrite Hs. simp removeConnection_loop. split; [|reflexivity].
    destruct s as [e sockets frames]. cbn in Hs. now subst sockets.
  - unfold onErrorOccurred. now destruct sender.
Qed.

(** X6: when no abort re-enters the server, [setEnabled(false)] aborts and
    schedules for deletion every non-null registered socket, once each, in
    list order, after announcing the change. *)
Theorem setEnabled_false_aborts_every_socket (s : Server) :
  snd (setEnabled (fun _ => false) false s)
  = EnabledChanged
      :: flat_map (fun sock => [SocketAbort sock; SocketDeleteLater sock])
           (live (m_sockets s)).
Proof.
  unfold setEnabled. cbn [negb fst snd]. f_equal.
  rewrite setEnabled_loop_plain. cbn [skipn].
  induction (m_sockets s) as [|[sock|] l IH]; cbn; [reflexivity| |assumption].
  now rewrite IH.
Qed.

Lemma live_cons_Some (sock : QTcpSocket) (l : list QTcpSocketPtr) :
  live (Some sock :: l) = sock :: live l.
Proof. reflexivity. Qed.

Lemma others_removeAt (i : nat) (l : list QTcpSocketPtr) :
  NoDup l -> i < length l -> others (at_ l i) l = removeAt i l.
Proof.
  revert i. induction l as [|x l IH]; intros i Hnd Hi; [cbn in Hi; lia|].
  inversion_clear Hnd as [|? ? Hx Hl]. destruct i as [|i].
  - change (at_ (x :: l) 0) with x. rewrite others_cons, ptr_eqb_refl.
    now apply others_absent.
  - change (at_ (x :: l) (S i)) with (at_ l i). cbn in Hi.
    rewrite others_cons.
    destruct (ptr_eqb x (at_ l i)) eqn:E.
    + apply ptr_eqb_eq in E. exfalso. apply Hx. subst x.
      apply nth_In. lia.
    + unfold removeAt. cbn [firstn skipn app]. f_equal.
      apply IH; [assumption|lia].
Qed.

Lemma removeAt_NoDup (i : nat) (l : list QTcpSocketPtr) :
  NoDup l -> i < length l -> NoDup (removeAt i l).
Proof.
  intros Hnd Hi. rewrite <- others_removeAt by assumption.
  now apply others_NoDup.
Qed.

Lemma skipn_S_removeAt (i : nat) (l : list QTcpSocketPtr) :
  skipn (S i) (removeAt i l) = skipn (S (S i)) l.
Proof.
  revert i. induction l as [|x l IH]; intros i.
  - unfold removeAt. now rewrite !skipn_nil, firstn_nil.
  - destruct i as [|i].
    + reflexivity.
    + change (removeAt (S i) (x :: l)) with (x :: removeAt i l).
      change (skipn (S (S i)) (x :: removeAt i l)) with (skipn (S i) (removeAt i l)).
      change (skipn (S (S (S i))) (x :: l)) with (skipn (S (S i)) l).
      apply IH.
Qed.

(** When every abort re-enters [removeConnection], the loop of
    [setEnabled(false)] aborts every other socket from index [i] on. *)
Lemma setEnabled_loop_reentrant (i : nat) (sockets : list QTcpSocketPtr) :
  NoDup sockets -> ~ In None sockets ->
  aborted (snd (setEnabled_loop (fun _ => true) i sockets))
  = alternate (live (skipn i sockets)).
Proof.
  funelim (setEnabled_loop (fun _ => true) i sockets);
    try discriminate; intros Hnd Hnn.
  - now rewrite skipn_all2 by lia.
  - exfalso. apply Hnn. rewrite <- Heq. apply nth_In. assumption.
  - cbn [snd aborted flat_map app].
    change (flat_map _ ?fx) with (aborted fx).
    change (Some socket) with (@Some QTcpSocket socket) in *.
    rewrite <- Heq0 in *.
    rewrite removeConnection_loop_NoDup, others_removeAt in * by assumption.
    rewrite H.
    + rewrite skipn_S_removeAt, (at_split sockets i l), Heq0, live_cons_Some.
      destruct (skipn (S i) sockets) as [|y rest] eqn:Es.
      * now rewrite (skipn_all2 sockets)
          by (apply (f_equal (@length _)) in Es; rewrite length_skipn in Es;
              cbn in Es; lia).
      * assert (Hy : exists sock', y = Some sock').
        { destruct y as [sock'|]; [now exists sock'|]. exfalso. apply Hnn.
          rewrite <- (firstn_skipn (S i) sockets), Es.
          apply in_or_app. right. now left. }
        destruct Hy as [sock' ->].
        assert (Hrest : skipn (S (S i)) sockets = rest).
        { change (S (S i)) with (1 + S i). rewrite <- skipn_skipn, Es.
          reflexivity. }
        now rewrite Hrest, live_cons_Some.
    + now apply removeAt_NoDup.
    + intros Hin. apply Hnn. unfold removeAt in Hin.
      apply in_app_or in Hin.
      rewrite <- (firstn_skipn i sockets). apply in_or_app.
      destruct Hin as [Hin|Hin]; [now left|right].
      rewrite (at_split sockets i l). now right.
Qed.

(** X7: if every [socket->abort()] emits [disconnected()] before it returns,
    so that [removeConnection] edits [m_sockets] under the loop of
    [setEnabled(false)], then only every other registered socket is aborted:
    the first, the third, and so on. *)
Theorem setEnabled_false_reentrant_aborts_alternate (history : list Event) :
  admissible history initial = true ->
  aborted (snd (setEnabled (fun _ => true) false (after history)))
  = alternate (live (m_sockets (after history))).
Proof.
  intros Hadm. destruct (after_distinct history Hadm) as [Hnd Hnn].
  unfold setEnabled. cbn [negb fst snd aborted flat_map app].
  change (flat_map _ ?fx) with (aborted fx).
  now rewrite setEnabled_loop_reentrant.
Qed.

(** X8: on an enabled server with no plugin connected, ticks neither send
    nor drop anything: through any run of ticks and frame-ready events the
    reported frames pile up in the buffer in order, and no call is made. *)
Theorem frames_wait_for_a_plugin (evs : list Event) (s : Server) :
  enabled s = true -> m_sockets s = [] ->
  forallb tick_or_frame evs = true ->
  run evs s = (with_frames s (m_frames s ++ frames_of evs), []).
Proof.
  revert s. induction evs as [|ev evs IH]; intros s Hen Hso Hevs.
  - cbn. rewrite app_nil_r. now destruct s.
  - cbn in Hevs. apply andb_true_iff in Hevs as [Hev Hevs].
    destruct ev as [frame|w| | | | | | ]; try discriminate; cbn [run handle].
    + unfold registerFrame. rewrite Hen. cbn [fst snd].
      rewrite IH by assumption. unfold with_frames. cbn.
      now rewrite <- app_assoc.
    + assert (Htick : sendProcessedData w s = (s, [])).
      { unfold sendProcessedData. rewrite Hen, Hso. cbn [negb length].
        now destruct (length (m_frames s) <=? 0). }
      rewrite Htick. cbn [fst snd]. now rewrite IH by assumption.
Qed.

Lemma acceptConnection_enabled (socket : QTcpSocket) (s : Server) :
  enabled s = true ->
  acceptConnection (Some socket) s
  = (with_sockets s (m_sockets s ++ [Some socket]), []).
Proof. intros Hen. unfold acceptConnection. now rewrite Hen. Qed.

(** X9: a socket accepted by an enabled server is served from the next
    event on: a raw chunk that arrives right after is written to it, once,
    if the socket is writable. *)
Theorem accepted_socket_receives_next_chunk (history : list Event)
  (socket : QTcpSocket) (data : QByteArray) (w : QTcpSocket -> bool) :
  admissible (history ++ [newConnection (Some socket)]) initial = true ->
  enabled (after history) = true -> w socket = true ->
  writes_to socket
    (snd (run [newConnection (Some socket); dataReceived data w] (after history)))
  = [raw_json data].
Proof.
  intros Hadm Hen Hw.
  pose proof (after_distinct _ Hadm) as [Hnd _].
  unfold after in Hnd. rewrite run_app in Hnd. cbn [fst run handle] in Hnd.
  fold (after history) in Hnd.
  cbn [run handle snd fst]. rewrite app_nil_r.
  rewrite acceptConnection_enabled in * by assumption.
  cbn [fst snd app] in *. rewrite sendRawData_effects. cbn [snd].
  change (enabled (with_sockets (after history) ?l)) with (enabled (after history)).
  rewrite Hen. cbn [m_sockets with_sockets] in *.
  rewrite writes_to_foreach_present; try assumption; [reflexivity|].
  apply in_or_app. right. now left.
Qed.

(** X10: on an enabled server, readable events forward their chunks to the
    I/O manager one call per event, in arrival order and unchanged, whoever
    the sending socket is; the server's state is not touched. *)
Theorem reverse_channel_keeps_order (chunks : list (QTcpSocket * QByteArray))
  (s : Server) :
  enabled s = true ->
  fst (run (reads chunks) s) = s
  /\ manager_writes (snd (run (reads chunks) s)) = map snd chunks.
Proof.
  intros Hen. induction chunks as [|[sock data] chunks [IHs IHw]]; [now split|].
  cbn [reads map run handle fst snd].
  unfold onDataReceived. rewrite Hen. cbn [fst snd].
  fold (reads chunks). rewrite IHs. split; [reflexivity|].
  cbn [app manager_writes flat_map].
  change (flat_map _ ?fx) with (manager_writes fx). now rewrite IHw.
Qed.

(** X11: an enabled server registers incoming connections in the order in
    which they arrive, after the sockets it already holds. *)
Theorem connections_register_in_arrival_order (sockets : list QTcpSocket)
  (s : Server) :
  enabled s = true ->
  run (connections sockets) s
  = (with_sockets s (m_sockets s ++ map Some sockets), []).
Proof.
  revert s. induction sockets as [|sock sockets IH]; intros s Hen.
  - cbn. rewrite app_nil_r. now destruct s.
  - cbn [connections map run handle]. fold (connections sockets).
    unfold acceptConnection. rewrite Hen. cbn [andb negb fst snd].
    rewrite IH by assumption. unfold with_sockets. cbn.
    now rewrite <- app_assoc.
Qed.

End ServerExtras.

(** Witness of X1: two plugins connect, then the server is disabled. *)
Lemma disabled_server_tracks_no_connection_witness :
  m_sockets (after (Scenario.two_plugins ++ [callSetEnabled false Scenario.never]))
  = [].
Proof.
  exact (disabled_server_tracks_no_connection
           (Scenario.two_plugins ++ [callSetEnabled false Scenario.never])
           eq_refl).
Defined.

(** Witness of X2: a socket disconnects and another one connects. *)
Lemma registered_sockets_are_distinct_witness :
  let history :=
    Scenario.two_plugins ++ [disconnected (Some 1); newConnection (Some 3)] in
  NoDup (m_sockets (after history)) /\ ~ In None (m_sockets (after history)).
Proof.
  exact (registered_sockets_are_distinct
           (Scenario.two_plugins ++ [disconnected (Some 1); newConnection (Some 3)])
           eq_refl).
Defined.

(** Witness of X3: the first of two plugins disconnects. *)
Lemma removeConnection_removes_only_sender_witness :
  let s := after Scenario.two_plugins in
  let s' := fst (removeConnection (Some 1) s) in
  m_sockets s' = filter (fun x => negb (ptr_eqb x (Some 1))) (m_sockets s)
  /\ m_enabled s' = m_enabled s /\ m_frames s' = m_frames s
  /\ (registered 1 s = true -> S (length (m_sockets s')) = length (m_sockets s)).
Proof.
  exact (removeConnection_removes_only_sender Scenario.two_plugins 1 eq_refl).
Defined.

(** Witness of X5: a tick reaches the server as constructed. *)
Lemma disabled_server_is_inert_witness :
  fst (handle (timeout1Hz Scenario.always) (after [])) = after []
  /\ forallb housekeeping (snd (handle (timeout1Hz Scenario.always) (after [])))
     = true.
Proof.
  exact (disabled_server_is_inert [] (timeout1Hz Scenario.always)
           eq_refl eq_refl).
Defined.

(** Witness of X7: three plugins; the second one is never aborted. *)
Lemma setEnabled_false_reentrant_witness :
  let history := Scenario.two_plugins ++ [newConnection (Some 3)] in
  aborted (snd (setEnabled Scenario.always false (after history)))
  = alternate (live (m_sockets (after history))).
Proof.
  exact (setEnabled_false_reentrant_aborts_alternate
           (Scenario.two_plugins ++ [newConnection (Some 3)]) eq_refl).
Defined.

(** Witness of X8: two frames around a tick, nobody connected. *)
Lemma frames_wait_for_a_plugin_witness :
  let s := after [callSetEnabled true Scenario.never] in
  let evs :=
    [frameChanged "f1"%string; timeout1Hz Scenario.always;
     frameChanged "f2"%string] in
  run evs s = (with_frames s (m_frames s ++ frames_of evs), []).
Proof.
  exact (frames_wait_for_a_plugin
           [frameChanged "f1"%string; timeout1Hz Scenario.always;
            frameChanged "f2"%string]
           (after [callSetEnabled true Scenario.never])
           eq_refl eq_refl eq_refl).
Defined.

(** Witness of X9: a third plugin connects and a chunk arrives. *)
Lemma accepted_socket_receives_next_chunk_witness :
  writes_to 3
    (snd (run [newConnection (Some 3);
               dataReceived (Sample.bytes "hi") Scenario.always]
              (after Scenario.two_plugins)))
  = [raw_json (Sample.bytes "hi")].
Proof.
  exact (accepted_socket_receives_next_chunk Scenario.two_plugins 3
           (Sample.bytes "hi") Scenario.always eq_refl eq_refl eq_refl).
Defined.

(** Witness of X10: two chunks from two sockets. *)
Lemma reverse_channel_keeps_order_witness :
  let chunks := [(1, Sample.bytes "ab"); (2, Sample.bytes "cd")] in
  let s := after Scenario.two_plugins in
  fst (run (reads chunks) s) = s
  /\ manager_writes (snd (run (reads chunks) s)) = map snd chunks.
Proof.
  exact (reverse_channel_keeps_order
           [(1, Sample.bytes "ab"); (2, Sample.bytes "cd")]
           (after Scenario.two_plugins) eq_refl).
Defined.

(** Witness of X11: two more plugins connect. *)
Lemma connections_register_in_arrival_order_witness :
  let s := after Scenario.two_plugins in
  run (connections [3; 4]) s
  = (with_sockets s (m_sockets s ++ map Some [3; 4]), []).
Proof.
  exact (connections_register_in_arrival_order [3; 4]
           (after Scenario.two_plugins) eq_refl).
Defined.

(** * Properties of the 3D plot widget *)

Module WidgetsFacts.
Import Widgets.

Lemma poke_next {A} (done : list A) (k : nat) (a : A) :
  poke (map Some done ++ uninitialized A (S k)) (length done) a
  = Some (map Some (done ++ [a]) ++ uninitialized A k).
Proof.
  unfold poke, uninitialized.
  rewrite length_app, length_map, repeat_length.
  destruct (Nat.ltb_spec (length done) (length done + S k)) as [_|]; [|lia].
  f_equal.
  rewrite <- (length_map Some done) at 1.
  rewrite firstn_app, firstn_all, Nat.sub_diag, firstn_O, app_nil_r.
  rewrite <- (length_map Some done) at 1.
  rewrite skipn_app, length_map.
  rewrite (skipn_all2 (map Some done)) by (rewrite length_map; lia).
  replace (S (length done) - length done) with 1 by lia.
  cbn [repeat skipn app]. rewrite map_app. cbn [map].
  now rewrite <- app_assoc.
Qed.

Section Facts.
Context {gfx : Graphics}.

Lemma fill_points_spec (points : list QVector3D) (done : list float)
  (mn mx : QVector3D) :
  fill_points {| vertexBuffer := map Some done
                                   ++ uninitialized float (length points * 3);
                 v := length done; min := mn; max := mx |} points
  = Some {| vertexBuffer := map Some (done ++ flatten points);
            v := length done + length points * 3;
            min := lower mn points; max := upper mx points |}.
Proof.
  revert done mn mx. induction points as [|p rest IH]; intros done mn mx.
  - cbn. now rewrite !app_nil_r, Nat.add_0_r.
  - cbn [fill_points length Nat.mul Nat.add]. unfold fill_point.
    cbn [vertexBuffer v min max]. rewrite poke_next.
    replace (length done + 1) with (length (done ++ [x p]))
      by now rewrite length_app.
    rewrite poke_next.
    replace (length done + 2) with (length ((done ++ [x p]) ++ [y p]))
      by (rewrite !length_app; cbn; lia).
    rewrite poke_next.
    replace (length done + 3) with (length (((done ++ [x p]) ++ [y p]) ++ [z p]))
      by (rewrite !length_app; cbn; lia).
    rewrite IH. f_equal. cbn [lower upper fold_left flatten flat_map].
    f_equal.
    + now rewrite <- !app_assoc.
    + rewrite !length_app. cbn. lia.
Qed.

Lemma fill_indices_spec (n first k : nat) :
  fill_indices (map Some (map N.of_nat (seq 0 first)) ++ uninitialized N (n + k))
               (seq first n)
  = Some (map Some (map N.of_nat (seq 0 (first + n))) ++ uninitialized N k).
Proof.
  revert first. induction n as [|n IH]; intros first.
  - cbn. now rewrite Nat.add_0_r.
  - cbn [seq fill_indices Nat.add].
    pose proof (poke_next (map N.of_nat (seq 0 first)) (n + k) (N.of_nat first))
      as Hpoke.
    rewrite length_map, length_seq in Hpoke. rewrite Hpoke.
    replace (map N.of_nat (seq 0 first) ++ [N.of_nat first])
      with (map N.of_nat (seq 0 (S first)))
      by (rewrite seq_S; now rewrite map_app).
    rewrite IH. now replace (S first + n) with (first + S n) by lia.
Qed.

Lemma to_quint32_le (n : nat) : N.to_nat (to_quint32 n) <= n.
Proof.
  unfold to_quint32.
  pose proof (N.Div0.mod_le (N.of_nat n) (2 ^ 32)). lia.
Qed.

Lemma to_quint32_small (n : nat) :
  (N.of_nat n < 2 ^ 32)%N -> N.to_nat (to_quint32 n) = n.
Proof. intros Hn. unfold to_quint32. rewrite N.mod_small by assumption. lia. Qed.

Lemma updateData_nonempty (first : QVector3D) (rest : list QVector3D)
  (interpolate : bool) (g : Plot3DGeometry) :
  let points := first :: rest in
  let mn := lower first points in
  let mx := upper first points in
  Plot3DGeometry_updateData points interpolate g
  = if vector_ne (m_min g) mn || vector_ne (m_max g) mx
    then Some ({| m_min := mn; m_max := mx |},
               update_calls points first interpolate ++ [BoundsChanged; Update])
    else Some (g, update_calls points first interpolate ++ [Update]).
Proof.
  intros points mn mx. subst mn mx. unfold Plot3DGeometry_updateData.
  assert (E : points = first :: rest) by reflexivity. clearbody points.
  destruct points as [|first0 rest0]; [discriminate|].
  injection E as -> ->. set (points := first :: rest).
  pose proof (fill_points_spec points [] first first) as Hfill.
  cbn [map app length] in Hfill. rewrite Hfill. clear Hfill.
  pose proof (to_quint32_le (length points)) as Hle.
  pose proof (fill_indices_spec (N.to_nat (to_quint32 (length points))) 0
                (length points - N.to_nat (to_quint32 (length points)))) as Hidx.
  cbn [seq map app Nat.add] in Hidx.
  replace (N.to_nat (to_quint32 (length points))
           + (length points - N.to_nat (to_quint32 (length points))))
    with (length points) in Hidx by lia.
  rewrite Hidx. reflexivity.
Qed.

(** X12: [Plot3DGeometry::updateData] never writes past the end of the
    vertex buffer or of the index buffer, whatever the points. *)
Theorem updateData_stays_in_bounds (points : list QVector3D)
  (interpolate : bool) (g : Plot3DGeometry) :
  exists result, Plot3DGeometry_updateData points interpolate g = Some result.
Proof.
  destruct points as [|first rest]; [now eexists|].
  rewrite updateData_nonempty.
  destruct (vector_ne _ _ || vector_ne _ _); now eexists.
Qed.

(** X13: for a non-empty list of fewer than 2^32 points, the vertex buffer
    handed to the base class is written in full and holds the coordinates
    of the points, x then y then z, in order; the index buffer is written
    in full and holds 0, 1, ..., n-1. *)
Theorem updateData_fills_both_buffers (points : list QVector3D)
  (interpolate : bool) (g : Plot3DGeometry) :
  points <> [] -> (N.of_nat (length points) < 2 ^ 32)%N ->
  exists g' calls,
    Plot3DGeometry_updateData points interpolate g = Some (g', calls)
    /\ In (SetVertexData (map Some (flatten points))) calls
    /\ In (SetIndexData 0 (map Some (map N.of_nat (seq 0 (length points)))))
         calls
    /\ length (flatten points) = 3 * length points.
Proof.
  intros Hne Hsize. destruct points as [|first rest]; [congruence|].
  rewrite updateData_nonempty. unfold update_calls.
  rewrite to_quint32_small, Nat.sub_diag by assumption.
  cbn [uninitialized repeat]. rewrite app_nil_r.
  assert (Hlen : forall l, length (flatten l) = 3 * length l).
  { induction l as [|p l IH]; [reflexivity|]. cbn [flatten flat_map].
    fold (flatten l). rewrite length_app, IH. cbn. lia. }
  destruct (vector_ne _ _ || vector_ne _ _); do 2 eexists;
    (split; [reflexivity|]);
    (split; [cbn; auto|]); (split; [cbn; auto 10|apply Hlen]).
Qed.

Lemma qMin_cases (a b : float) : qMin a b = a \/ qMin a b = b.
Proof. unfold qMin. destruct (float_lt a b); auto. Qed.

Lemma qMax_cases (a b : float) : qMax a b = a \/ qMax a b = b.
Proof. unfold qMax. destruct (float_lt a b); auto. Qed.

Lemma In_flatten (p : QVector3D) (points : list QVector3D) :
  In p points ->
  In (x p) (flatten points) /\ In (y p) (flatten points)
  /\ In (z p) (flatten points).
Proof.
  intros Hin. unfold flatten. rewrite !in_flat_map.
  repeat split; exists p; cbn; auto.
Qed.

(** Coordinate by coordinate, the running bounds are folds of [qMin] and
    [qMax]. *)
Lemma lower_coordinates (points : list QVector3D) (m : QVector3D) :
  x (lower m points) = fold_left qMin (map x points) (x m)
  /\ y (lower m points) = fold_left qMin (map y points) (y m)
  /\ z (lower m points) = fold_left qMin (map z points) (z m).
Proof.
  revert m. induction points as [|p rest IH]; intros m; [now cbn|].
  cbn [lower fold_left map]. apply IH.
Qed.

Lemma upper_coordinates (points : list QVector3D) (m : QVector3D) :
  x (upper m points) = fold_left qMax (map x points) (x m)
  /\ y (upper m points) = fold_left qMax (map y points) (y m)
  /\ z (upper m points) = fold_left qMax (map z points) (z m).
Proof.
  revert m. induction points as [|p rest IH]; intros m; [now cbn|].
  cbn [upper fold_left map]. apply IH.
Qed.

(** A fold of a choice between its two arguments picks the start or an
    element. *)
Lemma fold_picks (choose : float -> float -> float) (l : list float) (a : float) :
  (forall a b, choose a b = a \/ choose a b = b) ->
  In (fold_left choose l a) (a :: l).
Proof.
  intros Hchoose. revert a. induction l as [|b l IH]; intros a; [now left|].
  cbn [fold_left]. destruct (IH (choose a b)) as [E|Hin].
  - rewrite <- E. destruct (Hchoose a b) as [-> | ->]; cbn; auto.
  - right. now right.
Qed.

(** The bounds an update passes to [setBounds]. *)
Lemma updateData_bounds (points : list QVector3D) (interpolate : bool)
  (g g' : Plot3DGeometry) (calls : list GeometryCall) (mn mx : QVector3D) :
  Plot3DGeometry_updateData points interpolate g = Some (g', calls) ->
  In (SetBounds mn mx) calls ->
  exists first rest,
    points = first :: rest
    /\ mn = lower first points /\ mx = upper first points.
Proof.
  intros Hup Hin. destruct points as [|first rest].
  - cbn in Hup. injection Hup as <- <-. destruct Hin.
  - exists first, rest. split; [reflexivity|].
    rewrite updateData_nonempty in Hup. unfold update_calls in Hup.
    destruct (vector_ne _ _ || vector_ne _ _); injection Hup as <- <-;
      cbn in Hin;
      repeat match goal with
             | H : _ \/ _ |- _ => destruct H as [H|H]
             end; try discriminate; try contradiction;
      injection Hin as <- <-; auto.
Qed.

(** X14: each coordinate of the bounds passed to [setBounds] is that
    coordinate of one of the points: the box never reaches outside the
    values it was given, whatever [<] does. *)
Theorem updateData_bounds_are_coordinates (points : list QVector3D)
  (interpolate : bool) (g g' : Plot3DGeometry) (calls : list GeometryCall)
  (mn mx : QVector3D) :
  Plot3DGeometry_updateData points interpolate g = Some (g', calls) ->
  In (SetBounds mn mx) calls ->
  (In (x mn) (map x points) /\ In (y mn) (map y points)
   /\ In (z mn) (map z points))
  /\ (In (x mx) (map x points) /\ In (y mx) (map y points)
      /\ In (z mx) (map z points)).
Proof.
  intros Hup Hin.
  destruct (updateData_bounds _ _ _ _ _ _ _ Hup Hin)
    as (first & rest & -> & -> & ->).
  destruct (lower_coordinates (first :: rest) first) as (Ex & Ey & Ez).
  destruct (upper_coordinates (first :: rest) first) as (Fx & Fy & Fz).
  rewrite Ex, Ey, Ez, Fx, Fy, Fz.
  assert (Hpick : forall (choose : float -> float -> float) (l : list float)
                          (a : float),
             (forall a b, choose a b = a \/ choose a b = b) ->
             In (fold_left choose (a :: l) a) (a :: l)).
  { intros choose l a Hc. destruct (fold_picks choose (a :: l) a Hc) as [E|H];
      [rewrite <- E; now left|assumption]. }
  cbn [map]. repeat split; apply Hpick; auto using qMin_cases, qMax_cases.
Qed.

Lemma ordered_refl (values : list float) (a : float) :
  ordered values -> In a values -> float_le a a.
Proof.
  intros [Hasym _] Ha. unfold float_le.
  destruct (float_lt a a) eqn:E; [|reflexivity].
  now rewrite (Hasym a a Ha Ha E) in E.
Qed.

(** Under an order, a fold of [qMin] is below its start and every element. *)
Lemma fold_qMin_below (values l : list float) (a : float) :
  ordered values -> In a values -> incl l values ->
  float_le (fold_left qMin l a) a
  /\ forall b, In b l -> float_le (fold_left qMin l a) b.
Proof.
  intros Hord. revert a. induction l as [|b l IH]; intros a Ha Hl.
  - split; [now apply (ordered_refl values)|intros b []].
  - assert (Hb : In b values) by (apply Hl; now left).
    assert (Hl' : incl l values) by (intros c Hc; apply Hl; now right).
    assert (Hm : In (qMin a b) values)
      by (destruct (qMin_cases a b) as [-> | ->]; assumption).
    assert (Hma : float_le (qMin a b) a /\ float_le (qMin a b) b).
    { unfold qMin, float_le. destruct (float_lt a b) eqn:E.
      - split; [now apply (ordered_refl values)|].
        destruct Hord as [Hasym _]. now apply Hasym.
      - split; [assumption|now apply (ordered_refl values)]. }
    destruct (IH (qMin a b) Hm Hl') as [Hstart Hrest].
    assert (Hr : In (fold_left qMin l (qMin a b)) values).
    { destruct (fold_picks qMin l (qMin a b) qMin_cases) as [<-|Hin];
        [assumption|now apply Hl']. }
    cbn [fold_left]. destruct Hord as [_ Htrans]. split.
    + apply (Htrans _ (qMin a b)); tauto.
    + intros c [<-|Hc]; [|now apply Hrest].
      apply (Htrans _ (qMin a b)); tauto.
Qed.

Lemma fold_qMax_above (values l : list float) (a : float) :
  ordered values -> In a values -> incl l values ->
  float_le a (fold_left qMax l a)
  /\ forall b, In b l -> float_le b (fold_left qMax l a).
Proof.
  intros Hord. revert a. induction l as [|b l IH]; intros a Ha Hl.
  - split; [now apply (ordered_refl values)|intros b []].
  - assert (Hb : In b values) by (apply Hl; now left).
    assert (Hl' : incl l values) by (intros c Hc; apply Hl; now right).
    assert (Hm : In (qMax a b) values)
      by (destruct (qMax_cases a b) as [-> | ->]; assumption).
    assert (Hma : float_le a (qMax a b) /\ float_le b (qMax a b)).
    { unfold qMax, float_le. destruct (float_lt a b) eqn:E.
      - split; [|now apply (ordered_refl values)].
        destruct Hord as [Hasym _]. now apply Hasym.
      - split; [now apply (ordered_refl values)|assumption]. }
    destruct (IH (qMax a b) Hm Hl') as [Hstart Hrest].
    assert (Hr : In (fold_left qMax l (qMax a b)) values).
    { destruct (fold_picks qMax l (qMax a b) qMax_cases) as [<-|Hin];
        [assumption|now apply Hl']. }
    cbn [fold_left]. destruct Hord as [_ Htrans]. split.
    + apply (Htrans _ (qMax a b)); tauto.
    + intros c [<-|Hc]; [|now apply Hrest].
      apply (Htrans _ (qMax a b)); tauto.
Qed.

(** X15: when [<] orders the coordinates of the points as numbers are
    ordered, the bounds passed to [setBounds] enclose every point. *)
Theorem updateData_bounds_enclose_points (points : list QVector3D)
  (interpolate : bool) (g g' : Plot3DGeometry) (calls : list GeometryCall)
  (mn mx : QVector3D) :
  ordered (flatten points) ->
  Plot3DGeometry_updateData points interpolate g = Some (g', calls) ->
  In (SetBounds mn mx) calls ->
  forall p, In p points -> encloses mn mx p.
Proof.
  intros Hord Hup Hin p Hp.
  destruct (updateData_bounds _ _ _ _ _ _ _ Hup Hin)
    as (first & rest & E & -> & ->).
  destruct (lower_coordinates points first) as (Ex & Ey & Ez).
  destruct (upper_coordinates points first) as (Fx & Fy & Fz).
  assert (Hfirst : In first points) by (rewrite E; now left).
  destruct (In_flatten first points Hfirst) as (Hfx & Hfy & Hfz).
  assert (Hincl : forall proj : QVector3D -> float,
             (forall q, In q points -> In (proj q) (flatten points)) ->
             incl (map proj points) (flatten points)).
  { intros proj Hproj c Hc. apply in_map_iff in Hc as (q & <- & Hq).
    now apply Hproj. }
  assert (Hx := Hincl x (fun q Hq => proj1 (In_flatten q points Hq))).
  assert (Hy := Hincl y (fun q Hq => proj1 (proj2 (In_flatten q points Hq)))).
  assert (Hz := Hincl z (fun q Hq => proj2 (proj2 (In_flatten q points Hq)))).
  unfold encloses. rewrite Ex, Ey, Ez, Fx, Fy, Fz.
  repeat split;
    first [ apply (fold_qMin_below (flatten points)); try assumption;
            now apply in_map
          | apply (fold_qMax_above (flatten points)); try assumption;
            now apply in_map ].
Qed.

(** X16: switching the interpolation mode of a valid widget that has data
    and a geometry object redraws that object in the new mode -- line strip
    when enabled, points when not -- before the change is announced, and
    touches no other geometry object; asking for the same mode again does
    nothing. *)
Theorem setInterpolationEnabled_redraws (enabled : bool)
  (data : list QVector3D) (w : Plot3D) (scene : Scene) (p : nat) :
  interpolationEnabled w <> enabled -> data <> [] -> geometry w = Some p ->
  exists w' scene' calls,
    setInterpolationEnabled enabled true data w scene
    = Some (w', scene', calls ++ [InterpolationEnabledChanged])
    /\ interpolationEnabled w' = enabled
    /\ In (OnGeometry p (SetPrimitiveType
                           (if enabled then LineStrip else Points))) calls
    /\ (forall q, q <> p -> scene' q = scene q)
    /\ (forall valid' data' scene'',
          setInterpolationEnabled enabled valid' data' w' scene''
          = Some (w', scene'', [])).
Proof.
  unfold interpolationEnabled, geometry. intros Hflag Hdata Hgeo.
  destruct data as [|first rest]; [congruence|].
  unfold setInterpolationEnabled.
  assert (Hne : Bool.eqb (m_interpolationEnabled w) enabled = false)
    by (destruct (m_interpolationEnabled w), enabled; try reflexivity; congruence).
  rewrite Hne. cbn [negb]. unfold Plot3D_updateData.
  cbn [negb m_geometry m_interpolationEnabled]. rewrite Hgeo.
  rewrite updateData_nonempty.
  assert (Hagain : forall w',
             m_interpolationEnabled w' = enabled ->
             forall valid' data' scene'',
               (if negb (Bool.eqb (m_interpolationEnabled w') enabled)
                then match Plot3D_updateData valid' data'
                             {| m_index := m_index w';
                                m_diffuseColor := m_diffuseColor w';
                                m_geometry := m_geometry w';
                                m_interpolationEnabled := enabled |} scene'' with
                     | Some (scene', calls) =>
                         Some ({| m_index := m_index w';
                                  m_diffuseColor := m_diffuseColor w';
                                  m_geometry := m_geometry w';
                                  m_interpolationEnabled := enabled |},
                               scene', calls ++ [InterpolationEnabledChanged])
                     | None => None
                     end
                else Some (w', scene'', [])) = Some (w', scene'', [])).
  { intros w' -> valid' data' scene''. now rewrite Bool.eqb_reflx. }
  assert (Hput : forall g q, q <> p -> put scene p g q = scene q).
  { intros g q Hq. unfold put. now destruct (Nat.eqb_spec q p). }
  destruct (vector_ne _ _ || vector_ne _ _);
    do 3 eexists; (split; [reflexivity|]);
    (split; [reflexivity|]);
    (split; [unfold update_calls; cbn; auto 10|]);
    (split; [apply Hput|apply Hagain; reflexivity]).
Qed.

Lemma setGeometry_geometry (g : GeometryPtr) (w : Plot3D) :
  geometry (fst (setGeometry g w))
  = match g with Some _ => g | None => geometry w end.
Proof.
  unfold setGeometry, geometry. destruct g as [p|]; [|reflexivity].
  destruct (geometry_eqb (m_geometry w) (Some p)) eqn:E; [|reflexivity].
  cbn. destruct (m_geometry w) as [q|]; [|discriminate].
  cbn in E. apply Nat.eqb_eq in E. now subst.
Qed.

(** X17: after any sequence of [setGeometry] calls the widget holds the
    last non-null pointer it was given, or the one it had if all were null:
    a geometry, once set, is never reset to null. *)
Theorem setGeometry_keeps_last_given (geometries : list GeometryPtr)
  (w : Plot3D) :
  geometry (setGeometries geometries w) = last_set geometries (geometry w).
Proof.
  revert w. induction geometries as [|g rest IH]; intros w; [reflexivity|].
  cbn [setGeometries last_set]. rewrite IH, setGeometry_geometry.
  now destruct g.
Qed.

(** X18: with a non-negative index and a non-empty palette, the colour is
    the palette entry at the index modulo the palette size, which is always
    an entry of the palette. *)
Theorem onThemeChanged_wraps_around (c : QJsonArray number) (w : Plot3D) :
  (0 <= m_index w)%Z -> c <> [] ->
  exists value,
    nth_error c (Z.to_nat (m_index w mod Z.of_nat (length c))) = Some value
    /\ onThemeChanged c w
       = Some (recolored w (colorNamed (toString (Some value))), [ColorsChanged]).
Proof.
  intros Hidx Hc.
  assert (Hlen : (0 < Z.of_nat (length c))%Z)
    by (destruct c; [congruence|cbn; lia]).
  pose proof (Z.mod_pos_bound (m_index w) _ Hlen) as Hmod.
  destruct (nth_error c (Z.to_nat (m_index w mod Z.of_nat (length c))))
    as [value|] eqn:E; [|apply nth_error_None in E; lia].
  exists value. split; [reflexivity|].
  unfold onThemeChanged, count, recolored.
  destruct (Z.ltb_spec (m_index w) (Z.of_nat (length c))) as [Hlt|Hge].
  - rewrite Z.mod_small in E by lia. unfold QJsonArray_at.
    destruct (Z.ltb_spec (m_index w) 0); [lia|].
    destruct (Z.leb_spec (Z.of_nat (length c)) (m_index w)); [lia|].
    cbn [orb]. now rewrite E.
  - destruct (Nat.eqb_spec (length c) 0) as [H0|_]; [lia|].
    rewrite Z.rem_mod_nonneg by lia. unfold QJsonArray_at.
    destruct (Z.ltb_spec (m_index w mod Z.of_nat (length c)) 0); [lia|].
    destruct (Z.leb_spec (Z.of_nat (length c))
                (m_index w mod Z.of_nat (length c))); [lia|].
    cbn [orb]. now rewrite E.
Qed.

(** X19: [onThemeChanged] is undefined (a remainder by zero) exactly when the
    index is non-negative and the palette is empty; with a negative index --
    the default index is -1 -- the colour is the one named by the null
    string, whatever the palette. *)
Theorem onThemeChanged_edge_cases (c : QJsonArray number) (w : Plot3D) :
  (onThemeChanged c w = None <-> (0 <= m_index w)%Z /\ c = [])
  /\ ((m_index w < 0)%Z ->
      onThemeChanged c w
      = Some (recolored w (colorNamed EmptyString), [ColorsChanged])).
Proof.
  unfold onThemeChanged, count, recolored. split.
  - destruct (Z.ltb_spec (m_index w) (Z.of_nat (length c))) as [Hlt|Hge].
    + split; [discriminate|]. intros [Hidx ->]. cbn in Hlt. lia.
    + destruct (Nat.eqb_spec (length c) 0) as [H0|Hn].
      * split; [|reflexivity]. intros _. split; [lia|].
        now destruct c.
      * split; [discriminate|]. intros [_ ->]. now cbn in Hn.
  - intros Hneg.
    destruct (Z.ltb_spec (m_index w) (Z.of_nat (length c))) as [_|Hge]; [|lia].
    unfold QJsonArray_at.
    destruct (Z.ltb_spec (m_index w) 0); [reflexivity|lia].
Qed.

End Facts.
End WidgetsFacts.

(** Whole numbers are ordered by [Z.ltb]. *)
Lemma whole_numbers_ordered (values : list Z) :
  @Widgets.ordered Widgets.whole_numbers values.
Proof.
  unfold Widgets.ordered, Widgets.float_le. cbn. split.
  - intros a b _ _ H. apply Z.ltb_lt in H. apply Z.ltb_ge. lia.
  - intros a b c _ _ _ Hab Hbc. apply Z.ltb_ge in Hab, Hbc. apply Z.ltb_ge. lia.
Qed.

(** Witness of X13: two points fill six vertex slots and two index slots. *)
Lemma updateData_fills_both_buffers_witness :
  exists g' calls,
    Widgets.Plot3DGeometry_updateData Widgets.two_points true
      Widgets.fresh_geometry = Some (g', calls)
    /\ In (Widgets.SetVertexData
             (map Some (Widgets.flatten Widgets.two_points))) calls
    /\ In (Widgets.SetIndexData 0
             (map Some (map N.of_nat (seq 0 (length Widgets.two_points)))))
         calls
    /\ length (Widgets.flatten Widgets.two_points)
       = 3 * length Widgets.two_points.
Proof.
  apply (WidgetsFacts.updateData_fills_both_buffers Widgets.two_points true
           Widgets.fresh_geometry); [discriminate|reflexivity].
Defined.

(** Witness of X14: the box of the two points is made of their
    coordinates. *)
Lemma updateData_bounds_are_coordinates_witness :
  let mn := Widgets.point 1 0 (-1) in
  let mx := Widgets.point 3 5 2 in
  (In (Widgets.x mn) (map Widgets.x Widgets.two_points)
   /\ In (Widgets.y mn) (map Widgets.y Widgets.two_points)
   /\ In (Widgets.z mn) (map Widgets.z Widgets.two_points))
  /\ (In (Widgets.x mx) (map Widgets.x Widgets.two_points)
      /\ In (Widgets.y mx) (map Widgets.y Widgets.two_points)
      /\ In (Widgets.z mx) (map Widgets.z Widgets.two_points)).
Proof.
  eapply (WidgetsFacts.updateData_bounds_are_coordinates Widgets.two_points
            true Widgets.fresh_geometry).
  - reflexivity.
  - cbn. auto.
Defined.

(** Witness of X15: the box (1,0,-1)-(3,5,2) encloses the point (1,5,2). *)
Lemma updateData_bounds_enclose_points_witness :
  Widgets.encloses (Widgets.point 1 0 (-1)) (Widgets.point 3 5 2)
    (Widgets.point 1 5 2).
Proof.
  eapply (WidgetsFacts.updateData_bounds_enclose_points Widgets.two_points
            true Widgets.fresh_geometry).
  - apply whole_numbers_ordered.
  - reflexivity.
  - cbn. auto.
  - cbn. auto.
Defined.

(** Witness of X16: the sample widget leaves line-strip mode. *)
Lemma setInterpolationEnabled_redraws_witness :
  exists w' scene' calls,
    Widgets.setInterpolationEnabled false true Widgets.two_points
      Widgets.sample_plot (fun _ => Widgets.fresh_geometry)
    = Some (w', scene', calls ++ [Widgets.InterpolationEnabledChanged])
    /\ Widgets.interpolationEnabled w' = false
    /\ In (Widgets.OnGeometry 7 (Widgets.SetPrimitiveType Widgets.Points)) calls
    /\ (forall q, q <> 7 ->
                  scene' q = (fun _ => Widgets.fresh_geometry) q)
    /\ (forall valid' data' scene'',
          Widgets.setInterpolationEnabled false valid' data' w' scene''
          = Some (w', scene'', [])).
Proof.
  apply (WidgetsFacts.setInterpolationEnabled_redraws false Widgets.two_points
           Widgets.sample_plot (fun _ => Widgets.fresh_geometry) 7);
    [discriminate|discriminate|reflexivity].
Defined.

(** Witness of X18: series 4 on a palette of three colours gets the second
    colour. *)
Lemma onThemeChanged_wraps_around_witness :
  exists value,
    nth_error Widgets.palette
      (Z.to_nat (Widgets.m_index Widgets.sample_plot
                 mod Z.of_nat (length Widgets.palette))) = Some value
    /\ Widgets.onThemeChanged Widgets.palette Widgets.sample_plot
       = Some (Widgets.recolored Widgets.sample_plot
                 (Widgets.colorNamed (Widgets.toString (Some value))),
               [Widgets.ColorsChanged]).
Proof.
  apply (WidgetsFacts.onThemeChanged_wraps_around Widgets.palette
           Widgets.sample_plot); [cbn; lia|discriminate].
Defined.
